(** * Amazon deal monitor: a shallow embedding of the deal engine

    Modelled sources:
    - [src/src/analyzer/fee-calculator.ts]   (FeeCalculator)
    - [src/src/analyzer/deal-classifier.ts]  (DealClassifier)
    - [src/unnamed/part_004]                 (DealAnalyzer)
    - [src/unnamed/part_001]                 (PriceHistoryManager)
    - [src/src/discord/types.ts]             (DealFilterManager)
    - [src/unnamed/part_005]                 (TaskQueue)
    - [src/src/scheduler/scheduler.ts]       (DealScheduler: cron expression, statistics)
    - [src/src/tracker/tracker.ts]           (DealTracker)

    Modelling conventions.
    - decimal.js values and JS numbers are modelled as exact rationals [Q];
      comparisons ([lt], [lte], [gt], [equals], [<], [>]) compare values.
    - [Date] values are integers (milliseconds); [new Date()] is the clock
      value [now] passed to each operation.
    - [uuidv4()] is modelled by a counter held in the state: every call
      returns an identifier never returned before.
    - a thrown error is an [inl message] of a sum type; reading a key of an
      object literal also finds the members inherited from
      [Object.prototype].
    - a [Map] is a [gmap]; a JS array is a [list]; the deal map of
      [DealTracker], whose insertion order [getAllDeals] shows, is an
      association list. *)

From Stdlib Require Import QArith Qround String List Lia Lqa Sorted.
From stdpp Require Import base gmap strings list pretty.

Open Scope Q_scope.

(* ------------------------------------------------------------------ *)
(** ** Numbers *)

(** [a < b] on decimal values / numbers. *)
Definition Qltb (a b : Q) : bool := negb (Qle_bool b a).

(** [a > b]. *)
Definition Qgtb (a b : Q) : bool := Qltb b a.

(** [Decimal.max(a, b, c)]. *)
Definition Qmax3 (a b c : Q) : Q :=
  let m := if Qle_bool a b then b else a in
  if Qle_bool m c then c else m.

(* ------------------------------------------------------------------ *)
(** ** Models ([models/product.ts], [models/deal.ts]) *)

Inductive MarketplaceCode := DE | FR | IT | ES.

Inductive FulfillmentType := FBA | FBM.

Inductive DealTier := low | medium | high.

Definition MarketplaceCode_eq_dec (a b : MarketplaceCode) : {a = b} + {a <> b}.
Proof. decide equality. Defined.

Definition FulfillmentType_eqb (a b : FulfillmentType) : bool :=
  match a, b with
  | FBA, FBA | FBM, FBM => true
  | _, _ => false
  end.

Record Dimensions := mkDimensions {
  dim_length : Q;  (* cm *)
  dim_width : Q;   (* cm *)
  dim_height : Q   (* cm *)
}.

Record FeeBreakdown := mkFeeBreakdown {
  referralFee : Q;
  fulfillmentFee : Q;
  storageFee : Q;
  vat : Q;
  shippingCost : Q;
  total : Q
}.

(* ------------------------------------------------------------------ *)
(** ** FeeCalculator ([src/src/analyzer/fee-calculator.ts]) *)

Record FeeCalculationParams := mkFeeCalculationParams {
  param_salePrice : Q;
  param_category : string;
  param_fulfillmentType : FulfillmentType;
  param_marketplace : MarketplaceCode;
  param_productWeight : option Q;            (* kg *)
  param_productDimensions : option Dimensions;
  param_isMedia : option bool
}.

Record FbaFees := mkFbaFees {
  smallStandard : Q;
  standard : Q;
  largeStandard : Q;
  specialOversize : Q
}.

(** [FeeCalculator.REFERRAL_FEES]. *)
Definition REFERRAL_FEES : list (string * Q) :=
  [("default", 15 # 100); ("Consumer Electronics", 8 # 100);
   ("Computers", 7 # 100); ("Camera & Photo", 8 # 100);
   ("Home & Garden", 15 # 100); ("Toys & Games", 15 # 100);
   ("Sports & Outdoors", 15 # 100); ("Books", 15 # 100);
   ("Music", 15 # 100); ("DVD & Blu-ray", 15 # 100);
   ("Software", 15 # 100); ("Video Games", 15 # 100);
   ("Kitchen", 15 # 100); ("Pet Supplies", 15 # 100);
   ("Baby", 15 # 100); ("Health & Personal Care", 15 # 100);
   ("Beauty", 15 # 100); ("Clothing", 17 # 100);
   ("Shoes & Jewelry", 17 # 100); ("Watches", 16 # 100);
   ("Automotive", 12 # 100); ("Tools & Home Improvement", 15 # 100);
   ("Grocery", 15 # 100)]%string.

Fixpoint assoc_lookup {A} (k : string) (l : list (string * A)) : option A :=
  match l with
  | [] => None
  | (k', v) :: l' => if String.eqb k k' then Some v else assoc_lookup k l'
  end.

(** A JS value read from an object: a number, a function or another
    object ([undefined] is the absent [option]). *)
Inductive JSValue :=
  | JSNumber (r : Q)
  | JSFunction
  | JSObject.

(** The members every object literal inherits from [Object.prototype]:
    [__proto__] is an accessor that returns the prototype object, all the
    others are methods. *)
Definition Object_prototype_keys : list string :=
  ["constructor"; "__defineGetter__"; "__defineSetter__"; "hasOwnProperty";
   "__lookupGetter__"; "__lookupSetter__"; "isPrototypeOf";
   "propertyIsEnumerable"; "toString"; "valueOf"; "__proto__";
   "toLocaleString"]%string.

Definition Object_prototype_member (k : string) : option JSValue :=
  if String.eqb k "__proto__" then Some JSObject
  else if existsb (String.eqb k) Object_prototype_keys then Some JSFunction
  else None.

(** [REFERRAL_FEES[category]]: an own key, else an inherited member, else
    [undefined]. *)
Definition REFERRAL_FEES_get (category : string) : option JSValue :=
  match assoc_lookup category REFERRAL_FEES with
  | Some r => Some (JSNumber r)
  | None => Object_prototype_member category
  end.

(** JS truthiness: [undefined] and the number 0 are falsy. *)
Definition js_truthy (v : option JSValue) : bool :=
  match v with
  | None => false
  | Some (JSNumber r) => negb (Qeq_bool r 0)
  | Some _ => true
  end.

(** [a || b]. *)
Definition js_or (a b : option JSValue) : option JSValue :=
  if js_truthy a then a else b.

(** [REFERRAL_FEES[category] || REFERRAL_FEES.default]. *)
Definition referralFeeRate (category : string) : option JSValue :=
  js_or (REFERRAL_FEES_get category) (REFERRAL_FEES_get "default"%string).

(** [x.mul(v)]: decimal.js converts [v] with [new Decimal(v)], which throws
    a [DecimalError] for a value that is neither a number, a string nor a
    Decimal (the message, which also prints [v], is kept up to its prefix). *)
Definition decimal_mul (x : Q) (v : option JSValue) : string + Q :=
  match v with
  | Some (JSNumber r) => inr (x * r)
  | _ => inl "[DecimalError] Invalid argument"%string
  end.

(** [FeeCalculator.VAT_RATES]. *)
Definition VAT_RATES (m : MarketplaceCode) : Q :=
  match m with
  | DE => 19 # 100
  | FR => 20 # 100
  | IT => 22 # 100
  | ES => 21 # 100
  end.

(** [FeeCalculator.CLOSING_FEES]. *)
Definition CLOSING_FEES (m : MarketplaceCode) : Q :=
  match m with
  | DE | FR | IT | ES => 99 # 100
  end.

(** [FeeCalculator.FBA_FEES] (the same table for every marketplace). *)
Definition FBA_FEES (m : MarketplaceCode) : FbaFees :=
  match m with
  | DE | FR | IT | ES =>
      mkFbaFees (250 # 100) (322 # 100) (475 # 100) (850 # 100)
  end.

Definition FBA_WEIGHT_FEE : Q := 42 # 100.

(** Ascending insertion sort: [[l, w, h].sort((a, b) => a.minus(b).toNumber())]. *)
Fixpoint insert_asc (x : Q) (l : list Q) : list Q :=
  match l with
  | [] => [x]
  | y :: l' => if Qle_bool x y then x :: l else y :: insert_asc x l'
  end.

Fixpoint sort_asc (l : list Q) : list Q :=
  match l with
  | [] => []
  | x :: l' => insert_asc x (sort_asc l')
  end.

Definition calculateFBAFee (m : MarketplaceCode) (weight : option Q)
    (dimensions : option Dimensions) : Q :=
  let fbaFees := FBA_FEES m in
  let baseFee :=
    match dimensions with
    | None => standard fbaFees
    | Some d =>
        let volume := dim_length d * dim_width d * dim_height d in
        let longestSide := Qmax3 (dim_length d) (dim_width d) (dim_height d) in
        let sorted := sort_asc [dim_length d; dim_width d; dim_height d] in
        let medianSide := nth 1 sorted 0 in
        let shortestSide := nth 0 sorted 0 in
        if Qle_bool volume 1600 && Qle_bool longestSide 45 &&
           Qle_bool medianSide 35 && Qle_bool shortestSide 20 &&
           match weight with Some w => Qle_bool w 1 | None => true end
        then smallStandard fbaFees
        else if Qle_bool longestSide 61 && Qle_bool medianSide 46 &&
                Qle_bool shortestSide 46
        then standard fbaFees
        else if Qle_bool longestSide 120 && Qle_bool medianSide 60 &&
                Qle_bool shortestSide 60
        then largeStandard fbaFees
        else specialOversize fbaFees
    end in
  let weightFee :=
    match weight with
    | Some w => if Qgtb w 1 then (w - 1) * FBA_WEIGHT_FEE else 0
    | None => 0
    end in
  baseFee + weightFee.

Definition calculateStorageFee (ft : FulfillmentType)
    (dimensions : option Dimensions) : Q :=
  if negb (FulfillmentType_eqb ft FBA) then 0
  else
    let baseStorageFee := 26 # 100 in
    match dimensions with
    | Some d =>
        let volume := dim_length d * dim_width d * dim_height d / 1000000 in
        volume * baseStorageFee
    | None => 10 # 100
    end.

Definition calculateShippingCost (weight : option Q)
    (dimensions : option Dimensions) : Q :=
  let baseShipping := 350 # 100 in
  match weight with
  | Some w =>
      if Qgtb w (1 # 2) then baseShipping + (w - (1 # 2)) * (150 # 100)
      else baseShipping
  | None => baseShipping
  end.

(** [isMedia ? ... : ...]: [undefined] is falsy. *)
Definition truthy (b : option bool) : bool :=
  match b with Some true => true | _ => false end.

Definition closingFeeOf (params : FeeCalculationParams) : Q :=
  if truthy (param_isMedia params) then CLOSING_FEES (param_marketplace params) else 0.

(** [calculateFees]: a thrown error is [inl message]. *)
Definition calculateFees (params : FeeCalculationParams) : string + FeeBreakdown :=
  match decimal_mul (param_salePrice params) (referralFeeRate (param_category params)) with
  | inl err => inl err
  | inr referralFee =>
  let closingFee := closingFeeOf params in
  let fulfillmentFee :=
    if FulfillmentType_eqb (param_fulfillmentType params) FBA
    then calculateFBAFee (param_marketplace params) (param_productWeight params)
           (param_productDimensions params)
    else 0 in
  let storageFee :=
    calculateStorageFee (param_fulfillmentType params) (param_productDimensions params) in
  let vat := param_salePrice params * VAT_RATES (param_marketplace params) in
  let shippingCost :=
    if FulfillmentType_eqb (param_fulfillmentType params) FBM
    then calculateShippingCost (param_productWeight params) (param_productDimensions params)
    else 0 in
  let total :=
    referralFee + closingFee + fulfillmentFee + storageFee + vat + shippingCost in
  inr (mkFeeBreakdown referralFee fulfillmentFee storageFee vat shippingCost total)
  end.

(** Sum of the five itemised fields of a breakdown. *)
Definition itemised_sum (fb : FeeBreakdown) : Q :=
  referralFee fb + fulfillmentFee fb + storageFee fb + vat fb + shippingCost fb.

(* ------------------------------------------------------------------ *)
(** ** Products and deals ([models/product.ts], [models/deal.ts]) *)

(** [ProductData]; [timestamp] is a [Date]. *)
Record ProductData := mkProductData {
  asin : string;
  marketplace : MarketplaceCode;
  title : string;
  price : Q;
  currency : string;
  availability : bool;
  rating : Q;
  reviewCount : Q;
  salesRank : Q;
  seller : string;
  isPrime : bool;
  imageUrl : option string;
  productUrl : string;
  timestamp : Z
}.

Record DealMetrics := mkDealMetrics {
  salePrice : Q;
  costPrice : Q;
  totalFees : Q;
  profit : Q;
  margin : Q;  (* percentage *)
  roi : Q      (* percentage *)
}.

(** [Deal]; [id] is the [uuidv4()] drawn for it. *)
Record Deal := mkDeal {
  deal_id : nat;
  product : ProductData;
  metrics : DealMetrics;
  feeBreakdown : FeeBreakdown;
  tier : DealTier;
  fulfillmentType : FulfillmentType;
  detectedAt : Z
}.

(** [DealTierConfig]; an absent [maxMargin] / [maxRoi] is [None]. *)
Record DealTierConfig := mkDealTierConfig {
  minMargin : Q;
  maxMargin : option Q;
  minRoi : Q;
  maxRoi : option Q;
  role : string;
  color : Z
}.

(** [Record<DealTier, DealTierConfig>]. *)
Definition TierConfigs := DealTier -> DealTierConfig.

(* ------------------------------------------------------------------ *)
(** ** DealClassifier ([src/src/analyzer/deal-classifier.ts]) *)

(** The entries of [reasons]: the source renders each as a message built
    from these two numbers. *)
Inductive Reason :=
  | MarginMeets (m minimum : Q)
  | RoiMeets (r minimum : Q)
  | MarginBelow (m minimum : Q)
  | RoiBelow (r minimum : Q).

Record ClassificationResult := mkClassificationResult {
  result_tier : DealTier;
  qualifies : bool;
  reasons : list Reason
}.

Section Classifier.
Variable tierConfigs : TierConfigs.

Definition checkTier (deal : Deal) (t : DealTier) : bool :=
  let config := tierConfigs t in
  let m := margin (metrics deal) in
  let r := roi (metrics deal) in
  if Qltb m (minMargin config) then false
  else if (match maxMargin config with
           | Some mx => Qgtb m mx
           | None => false
           end) then false
  else if Qltb r (minRoi config) then false
  else if (match maxRoi config with
           | Some mx => Qgtb r mx
           | None => false
           end) then false
  else true.

Definition getTierReasons (t : DealTier) (m r : Q) : list Reason :=
  let config := tierConfigs t in
  (if Qle_bool (minMargin config) m then [MarginMeets m (minMargin config)] else [])
  ++ (if Qle_bool (minRoi config) r then [RoiMeets r (minRoi config)] else []).

Definition getDisqualificationReasons (m r : Q) : list Reason :=
  let lowestTier := tierConfigs low in
  (if Qltb m (minMargin lowestTier) then [MarginBelow m (minMargin lowestTier)] else [])
  ++ (if Qltb r (minRoi lowestTier) then [RoiBelow r (minRoi lowestTier)] else []).

Definition classify (deal : Deal) : ClassificationResult :=
  let m := margin (metrics deal) in
  let r := roi (metrics deal) in
  if checkTier deal high then
    mkClassificationResult high true (getTierReasons high m r)
  else if checkTier deal medium then
    mkClassificationResult medium true (getTierReasons medium m r)
  else if checkTier deal low then
    mkClassificationResult low true (getTierReasons low m r)
  else mkClassificationResult low false (getDisqualificationReasons m r).
End Classifier.

(* ------------------------------------------------------------------ *)
(** ** DealAnalyzer ([src/unnamed/part_004]) *)

Record AnalysisOptions := mkAnalysisOptions {
  opt_costPrice : Q;
  opt_fulfillmentType : FulfillmentType;
  opt_category : option string;
  opt_productWeight : option Q;
  opt_productDimensions : option Dimensions;
  opt_isMedia : option bool
}.

Definition calculateMetrics (salePrice costPrice totalFees : Q) : DealMetrics :=
  let profit := salePrice - costPrice - totalFees in
  let margin := if Qgtb salePrice 0 then profit / salePrice * 100 else 0 in
  let roi := if Qgtb costPrice 0 then profit / costPrice * 100 else 0 in
  mkDealMetrics salePrice costPrice totalFees profit margin roi.

Section Analyzer.
Variable tierConfigs : TierConfigs.

(** [analyze(product, options)]; [uuid] is the identifier [uuidv4()]
    returns and [now] the clock value of [new Date()]. *)
(** The [category] of [analyze]'s options: [category = 'default']. *)
Definition options_category (options : AnalysisOptions) : string :=
  match opt_category options with Some c => c | None => "default"%string end.

(** [analyze]: the error thrown by [calculateFees] is [inl message]; the
    uuid is drawn after the fees are computed. *)
Definition analyze (uuid : nat) (now : Z) (product : ProductData)
    (options : AnalysisOptions) : string + Deal :=
  let category := options_category options in
  let isMedia := match opt_isMedia options with
                 | Some b => b | None => false end in
  let feeParams :=
    mkFeeCalculationParams (price product) category
      (opt_fulfillmentType options) (marketplace product)
      (opt_productWeight options) (opt_productDimensions options)
      (Some isMedia) in
  match calculateFees feeParams with
  | inl err => inl err
  | inr feeBreakdown =>
      let metrics := calculateMetrics (price product) (opt_costPrice options)
                       (total feeBreakdown) in
      let deal := mkDeal uuid product metrics feeBreakdown low
                    (opt_fulfillmentType options) now in
      let classification := classify tierConfigs deal in
      inr (mkDeal uuid product metrics feeBreakdown (result_tier classification)
             (opt_fulfillmentType options) now)
  end.


End Analyzer.

(* ------------------------------------------------------------------ *)
(** ** PriceHistoryManager ([src/unnamed/part_001], types in [part_002]) *)

Record PriceHistoryEntry := mkPriceHistoryEntry {
  entry_asin : string;
  entry_marketplace : MarketplaceCode;
  entry_price : Q;
  entry_timestamp : Z
}.

Record PriceChangeAlert := mkPriceChangeAlert {
  alert_asin : string;
  alert_marketplace : MarketplaceCode;
  oldPrice : Q;
  newPrice : Q;
  changeAmount : Q;
  changePercentage : Q;
  alert_timestamp : Z
}.

Record PriceHistoryManager := mkPriceHistoryManager {
  history : gmap string (list PriceHistoryEntry);
  lastPrices : gmap string Q
}.

Definition emptyPriceHistoryManager : PriceHistoryManager :=
  mkPriceHistoryManager ∅ ∅.

Definition MarketplaceCode_str (m : MarketplaceCode) : string :=
  match m with
  | DE => "DE" | FR => "FR" | IT => "IT" | ES => "ES"
  end%string.

(** [getKey(asin, marketplace)] = [`${asin}:${marketplace}`]. *)
Definition getKey (asin : string) (m : MarketplaceCode) : string :=
  String.append asin (String.append ":" (MarketplaceCode_str m)).

(** The history cap of [addPriceEntry]. *)
Definition MAX_HISTORY : nat := 1000.

Definition addPriceEntry (st : PriceHistoryManager) (entry : PriceHistoryEntry)
    : PriceHistoryManager * option PriceChangeAlert :=
  let key := getKey (entry_asin entry) (entry_marketplace entry) in
  let alert :=
    match lastPrices st !! key with
    | Some lastPrice =>
        if negb (Qeq_bool lastPrice (entry_price entry)) then
          let changeAmount := entry_price entry - lastPrice in
          let changePercentage :=
            if Qgtb lastPrice 0 then changeAmount / lastPrice * 100 else 0 in
          Some (mkPriceChangeAlert (entry_asin entry) (entry_marketplace entry)
                  lastPrice (entry_price entry) changeAmount changePercentage
                  (entry_timestamp entry))
        else None
    | None => None
    end in
  let h := match history st !! key with Some h => h | None => [] end in
  let h := h ++ [entry] in
  let h := if Nat.ltb MAX_HISTORY (List.length h) then List.tl h else h in
  (mkPriceHistoryManager (<[key := h]> (history st))
     (<[key := entry_price entry]> (lastPrices st)), alert).

(** The manager after a sequence of [addPriceEntry] calls. *)
Fixpoint addPriceEntries (st : PriceHistoryManager) (es : list PriceHistoryEntry)
    : PriceHistoryManager :=
  match es with
  | [] => st
  | e :: es' => addPriceEntries (fst (addPriceEntry st e)) es'
  end.

(* ------------------------------------------------------------------ *)
(** ** DealFilterManager ([src/src/discord/types.ts]) *)

Record DealFilter := mkDealFilter {
  filter_minMargin : Q;
  filter_minRoi : Q;
  filter_minProfit : Q;
  filter_maxPrice : Q;
  filter_minRating : Q;
  filter_maxSalesRank : Q;
  filter_marketplaces : list MarketplaceCode
}.

Definition includes (l : list MarketplaceCode) (m : MarketplaceCode) : bool :=
  if in_dec MarketplaceCode_eq_dec m l then true else false.

Definition passesFilter (deal : Deal) (f : DealFilter) : bool :=
  let ms := metrics deal in
  let p := product deal in
  if Qltb (margin ms) (filter_minMargin f) then false
  else if Qltb (roi ms) (filter_minRoi f) then false
  else if Qltb (profit ms) (filter_minProfit f) then false
  else if Qgtb (price p) (filter_maxPrice f) then false
  else if Qltb (rating p) (filter_minRating f) then false
  else if Qgtb (filter_maxSalesRank f) 0 && Qgtb (salesRank p) (filter_maxSalesRank f)
  then false
  else if negb (includes (filter_marketplaces f) (marketplace p)) then false
  else true.

Definition filter (deals : list Deal) (f : DealFilter) : list Deal :=
  List.filter (fun deal => passesFilter deal f) deals.

(* ------------------------------------------------------------------ *)
(** ** TaskQueue ([src/unnamed/part_005]) *)

Inductive TaskType := TProduct | TCategory.

Inductive TaskStatus := pending | running | completed | failed.

(** [Task]; [id] is the [uuidv4()] drawn by [addTask]. *)
Record Task := mkTask {
  task_id : nat;
  task_type : TaskType;
  target : string;
  task_marketplace : MarketplaceCode;
  priority : Z;
  createdAt : Z;
  scheduledAt : option Z;
  startedAt : option Z;
  completedAt : option Z;
  status : TaskStatus;
  retryCount : Z;
  maxRetries : Z;
  task_error : option string
}.

(** [Omit<Task, 'id' | 'createdAt' | 'status' | 'retryCount'>]. *)
Record NewTask := mkNewTask {
  new_type : TaskType;
  new_target : string;
  new_marketplace : MarketplaceCode;
  new_priority : Z;
  new_scheduledAt : option Z;
  new_startedAt : option Z;
  new_completedAt : option Z;
  new_maxRetries : Z;
  new_error : option string
}.

(** [TaskResult]; [data] is an opaque payload. *)
Record TaskResult := mkTaskResult {
  taskId : nat;
  success : bool;
  data : option string;
  result_error : option string;
  duration : Z
}.

(** [Omit<TaskResult, 'taskId'>], the argument of [completeTask]. *)
Record ResultInput := mkResultInput {
  in_success : bool;
  in_data : option string;
  in_error : option string;
  in_duration : Z
}.

Record TaskQueue := mkTaskQueue {
  queue : list Task;
  runningTasks : gmap nat Task;
  completedTasks : gmap nat TaskResult;
  taskDurations : list Z;
  next_uuid : nat   (* the uuid supply *)
}.

Definition emptyTaskQueue : TaskQueue := mkTaskQueue [] ∅ ∅ [] 0.

(** [this.queue.sort((a, b) => b.priority - a.priority)]: Array.prototype.sort
    is stable, so this is the stable sort by descending priority (insertion
    sort; an element goes before the first one of no greater priority that
    came after it). *)
Fixpoint insertByPriority (t : Task) (l : list Task) : list Task :=
  match l with
  | [] => [t]
  | u :: l' => if Z.leb (priority u) (priority t) then t :: l
               else u :: insertByPriority t l'
  end.

Fixpoint sortByPriority (l : list Task) : list Task :=
  match l with
  | [] => []
  | t :: l' => insertByPriority t (sortByPriority l')
  end.

Definition set_running (now : Z) (t : Task) : Task :=
  mkTask (task_id t) (task_type t) (target t) (task_marketplace t) (priority t)
    (createdAt t) (scheduledAt t) (Some now) (completedAt t) running
    (retryCount t) (maxRetries t) (task_error t).

Definition set_completed (now : Z) (t : Task) : Task :=
  mkTask (task_id t) (task_type t) (target t) (task_marketplace t) (priority t)
    (createdAt t) (scheduledAt t) (startedAt t) (Some now) completed
    (retryCount t) (maxRetries t) (task_error t).

(** The requeue branch of [failTask] ([retryCount] already incremented). *)
Definition set_requeued (rc : Z) (err : string) (t : Task) : Task :=
  mkTask (task_id t) (task_type t) (target t) (task_marketplace t) (priority t)
    (createdAt t) (scheduledAt t) None (completedAt t) pending
    rc (maxRetries t) (Some err).

(** The terminal branch of [failTask] ([retryCount] already incremented). *)
Definition set_failed (rc : Z) (now : Z) (err : string) (t : Task) : Task :=
  mkTask (task_id t) (task_type t) (target t) (task_marketplace t) (priority t)
    (createdAt t) (scheduledAt t) (startedAt t) (Some now) failed
    rc (maxRetries t) (Some err).

(** [task.completedAt.getTime() - (task.startedAt?.getTime() || task.createdAt.getTime())]:
    a missing or zero start time falls back to the creation time. *)
Definition durationOf (t : Task) (completedAt : Z) : Z :=
  let start := match startedAt t with
               | Some s => if Z.eqb s 0 then createdAt t else s
               | None => createdAt t
               end in
  (completedAt - start)%Z.

Definition addTask (nt : NewTask) (now : Z) (s : TaskQueue) : nat * TaskQueue :=
  let id := next_uuid s in
  let newTask :=
    mkTask id (new_type nt) (new_target nt) (new_marketplace nt)
      (new_priority nt) now (new_scheduledAt nt) (new_startedAt nt)
      (new_completedAt nt) pending 0 (new_maxRetries nt) (new_error nt) in
  (id, mkTaskQueue (sortByPriority (queue s ++ [newTask])) (runningTasks s)
         (completedTasks s) (taskDurations s) (S id)).

Definition getNextTask (now : Z) (s : TaskQueue) : option Task * TaskQueue :=
  match queue s with
  | [] => (None, s)
  | t :: q =>
      let t := set_running now t in
      (Some t, mkTaskQueue q (<[task_id t := t]> (runningTasks s))
                 (completedTasks s) (taskDurations s) (next_uuid s))
  end.

(** [getNextTasks(count)]: at most [count] calls to [getNextTask]. *)
Fixpoint getNextTasks_loop (fuel : nat) (now : Z) (s : TaskQueue)
    : list Task * TaskQueue :=
  match fuel with
  | O => ([], s)
  | S fuel' =>
      match queue s with
      | [] => ([], s)
      | _ =>
          let '(ot, s1) := getNextTask now s in
          let '(ts, s2) := getNextTasks_loop fuel' now s1 in
          (match ot with Some t => t :: ts | None => ts end, s2)
      end
  end.

Definition getNextTasks (count : Z) (now : Z) (s : TaskQueue)
    : list Task * TaskQueue :=
  getNextTasks_loop (Z.to_nat count) now s.

(** [completeTask]; the second component is the task object as mutated. *)
Definition completeTask (taskId : nat) (result : ResultInput) (now : Z)
    (s : TaskQueue) : TaskQueue * option Task :=
  match runningTasks s !! taskId with
  | None => (s, None)
  | Some task =>
      let task := set_completed now task in
      let duration := durationOf task now in
      let durs := taskDurations s ++ [duration] in
      let durs := if Nat.ltb 100 (List.length durs) then List.tl durs else durs in
      (mkTaskQueue (queue s) (delete taskId (runningTasks s))
         (<[taskId := mkTaskResult taskId (in_success result) (in_data result)
                        (in_error result) duration]> (completedTasks s))
         durs (next_uuid s), Some task)
  end.

(** [failTask]; the second component is the task object as mutated. *)
Definition failTask (taskId : nat) (err : string) (now : Z) (s : TaskQueue)
    : TaskQueue * option Task :=
  match runningTasks s !! taskId with
  | None => (s, None)
  | Some task =>
      let rc := (retryCount task + 1)%Z in
      if Z.ltb rc (maxRetries task) then
        let task := set_requeued rc err task in
        (mkTaskQueue (sortByPriority (queue s ++ [task]))
           (delete taskId (runningTasks s)) (completedTasks s)
           (taskDurations s) (next_uuid s), Some task)
      else
        let task := set_failed rc now err task in
        let duration := durationOf task now in
        (mkTaskQueue (queue s) (delete taskId (runningTasks s))
           (<[taskId := mkTaskResult taskId false None (Some err) duration]>
              (completedTasks s))
           (taskDurations s) (next_uuid s), Some task)
  end.

(** The operations of the queue named in its contract. *)
Inductive QueueOp :=
  | OpAddTask (nt : NewTask) (now : Z)
  | OpGetNextTask (now : Z)
  | OpGetNextTasks (count : Z) (now : Z)
  | OpCompleteTask (id : nat) (result : ResultInput) (now : Z)
  | OpFailTask (id : nat) (err : string) (now : Z).

Definition exec (op : QueueOp) (s : TaskQueue) : TaskQueue :=
  match op with
  | OpAddTask nt now => snd (addTask nt now s)
  | OpGetNextTask now => snd (getNextTask now s)
  | OpGetNextTasks count now => snd (getNextTasks count now s)
  | OpCompleteTask id r now => fst (completeTask id r now s)
  | OpFailTask id err now => fst (failTask id err now s)
  end.

Fixpoint run (s : TaskQueue) (ops : list QueueOp) : TaskQueue :=
  match ops with
  | [] => s
  | op :: ops' => run (exec op s) ops'
  end.

(* ------------------------------------------------------------------ *)
(** ** PriceHistoryManager: queries and clearing ([src/unnamed/part_001]) *)

(** [array.slice(start)] for an integer [start]: a negative start counts
    from the end (and is clamped at 0), a non-negative one drops that many
    elements. *)
Definition slice_from {A} (start : Z) (l : list A) : list A :=
  if Z.ltb start 0 then skipn (Z.to_nat (Z.of_nat (List.length l) + start)) l
  else skipn (Z.to_nat start) l.

(** [getPriceHistory(asin, marketplace, limit)]; an omitted [limit] is
    [None], and [0] is falsy. *)
Definition getPriceHistory (st : PriceHistoryManager) (a : string)
    (m : MarketplaceCode) (limit : option Z) : list PriceHistoryEntry :=
  let h := match history st !! getKey a m with Some h => h | None => [] end in
  match limit with
  | Some n => if Z.eqb n 0 then h else slice_from (- n) h
  | None => h
  end.

(** [getLastPrice]: [lastPrices.get(key) || null]; a Decimal object is
    always truthy, so this is the lookup. *)
Definition getLastPrice (st : PriceHistoryManager) (a : string)
    (m : MarketplaceCode) : option Q :=
  lastPrices st !! getKey a m.

(** [history.filter((entry) => entry.timestamp >= cutoffDate)]; [cutoff] is
    the clock value of [cutoffDate] ([new Date()] moved back [days] days). *)
Definition recentEntries (h : list PriceHistoryEntry) (cutoff : Z)
    : list PriceHistoryEntry :=
  List.filter (fun e => Z.leb cutoff (entry_timestamp e)) h.

Definition getAveragePrice (st : PriceHistoryManager) (a : string)
    (m : MarketplaceCode) (cutoff : Z) : option Q :=
  match history st !! getKey a m with
  | None | Some [] => None
  | Some h =>
      match recentEntries h cutoff with
      | [] => None
      | r =>
          let sum := fold_left (fun acc e => acc + entry_price e) r 0 in
          Some (sum / inject_Z (Z.of_nat (List.length r)))
      end
  end.

Definition getLowestPrice (st : PriceHistoryManager) (a : string)
    (m : MarketplaceCode) (cutoff : Z) : option Q :=
  match history st !! getKey a m with
  | None | Some [] => None
  | Some h =>
      match recentEntries h cutoff with
      | [] => None
      | (e0 :: _) as r =>
          Some (fold_left (fun mn e => if Qltb (entry_price e) mn then entry_price e else mn)
                  r (entry_price e0))
      end
  end.

Definition getHighestPrice (st : PriceHistoryManager) (a : string)
    (m : MarketplaceCode) (cutoff : Z) : option Q :=
  match history st !! getKey a m with
  | None | Some [] => None
  | Some h =>
      match recentEntries h cutoff with
      | [] => None
      | (e0 :: _) as r =>
          Some (fold_left (fun mx e => if Qgtb (entry_price e) mx then entry_price e else mx)
                  r (entry_price e0))
      end
  end.

Definition clearHistory (st : PriceHistoryManager) (a : string)
    (m : MarketplaceCode) : PriceHistoryManager :=
  let key := getKey a m in
  mkPriceHistoryManager (delete key (history st)) (delete key (lastPrices st)).

Definition clearAllHistory (st : PriceHistoryManager) : PriceHistoryManager :=
  mkPriceHistoryManager ∅ ∅.

Definition getTrackedProductsCount (st : PriceHistoryManager) : nat :=
  size (history st).

(* ------------------------------------------------------------------ *)
(** ** DealFilterManager: sorting and selection ([src/src/discord/types.ts]) *)

(** [[...deals].sort(compareFn)]: Array.prototype.sort is stable, so [x]
    goes before the first element [u] of the sorted rest with
    [compareFn(x, u) <= 0]. *)
Fixpoint insertBy (cmp : Deal -> Deal -> Q) (x : Deal) (l : list Deal) : list Deal :=
  match l with
  | [] => [x]
  | u :: l' => if Qle_bool (cmp x u) 0 then x :: l else u :: insertBy cmp x l'
  end.

Fixpoint sortBy (cmp : Deal -> Deal -> Q) (l : list Deal) : list Deal :=
  match l with
  | [] => []
  | x :: l' => insertBy cmp x (sortBy cmp l')
  end.

Definition sortByMargin (deals : list Deal) (descending : bool) : list Deal :=
  sortBy (fun a b => if descending then margin (metrics b) - margin (metrics a)
                     else margin (metrics a) - margin (metrics b)) deals.

Definition sortByRoi (deals : list Deal) (descending : bool) : list Deal :=
  sortBy (fun a b => if descending then roi (metrics b) - roi (metrics a)
                     else roi (metrics a) - roi (metrics b)) deals.

Definition sortByProfit (deals : list Deal) (descending : bool) : list Deal :=
  sortBy (fun a b => if descending then profit (metrics b) - profit (metrics a)
                     else profit (metrics a) - profit (metrics b)) deals.

Definition sortByPrice (deals : list Deal) (descending : bool) : list Deal :=
  sortBy (fun a b => if descending then price (product b) - price (product a)
                     else price (product a) - price (product b)) deals.

Definition sortBySalesRank (deals : list Deal) (ascending : bool) : list Deal :=
  sortBy (fun a b => if ascending then salesRank (product a) - salesRank (product b)
                     else salesRank (product b) - salesRank (product a)) deals.

Definition sortByRating (deals : list Deal) (descending : bool) : list Deal :=
  sortBy (fun a b => if descending then rating (product b) - rating (product a)
                     else rating (product a) - rating (product b)) deals.

(** The [sortBy] argument of [getTopDeals]. *)
Inductive SortKey := by_margin | by_roi | by_profit.

(** [array.slice(0, end)] for an integer [end]: a negative end counts from
    the end (and is clamped at 0). *)
Definition slice_to {A} (end_ : Z) (l : list A) : list A :=
  if Z.ltb end_ 0 then firstn (Z.to_nat (Z.of_nat (List.length l) + end_)) l
  else firstn (Z.to_nat end_) l.

Definition getTopDeals (deals : list Deal) (count : Z) (sortKey : SortKey) : list Deal :=
  let sorted :=
    match sortKey with
    | by_margin => sortByMargin deals true
    | by_roi => sortByRoi deals true
    | by_profit => sortByProfit deals true
    end in
  slice_to count sorted.

Definition DealTier_eqb (a b : DealTier) : bool :=
  match a, b with
  | low, low | medium, medium | high, high => true
  | _, _ => false
  end.

Definition getDealsByTier (deals : list Deal) (t : DealTier) : list Deal :=
  List.filter (fun deal => DealTier_eqb (tier deal) t) deals.

(** [deal.product.marketplace === marketplace] with [marketplace] a string. *)
Definition getDealsByMarketplace (deals : list Deal) (m : string) : list Deal :=
  List.filter (fun deal => String.eqb (MarketplaceCode_str (marketplace (product deal))) m)
    deals.

(* ------------------------------------------------------------------ *)
(** ** DealClassifier: tier configuration ([src/src/analyzer/deal-classifier.ts],
       [DealAnalyzer.updateTierConfigs] in [src/unnamed/part_004]) *)

(** [Partial<DealTierConfig>]: [None] is an absent key; the optional
    [maxMargin] / [maxRoi] keys may also be present with value [undefined]
    ([Some None]). *)
Record PartialTierConfig := mkPartialTierConfig {
  p_minMargin : option Q;
  p_maxMargin : option (option Q);
  p_minRoi : option Q;
  p_maxRoi : option (option Q);
  p_role : option string;
  p_color : option Z
}.

Definition override {A} (old : A) (o : option A) : A :=
  match o with Some v => v | None => old end.

(** [{ ...old, ...config }]: every key present in [config] wins. *)
Definition mergeTierConfig (old : DealTierConfig) (p : PartialTierConfig) : DealTierConfig :=
  mkDealTierConfig (override (minMargin old) (p_minMargin p))
    (override (maxMargin old) (p_maxMargin p))
    (override (minRoi old) (p_minRoi p))
    (override (maxRoi old) (p_maxRoi p))
    (override (role old) (p_role p))
    (override (color old) (p_color p)).

Definition getTierConfig (tierConfigs : TierConfigs) (t : DealTier) : DealTierConfig :=
  tierConfigs t.

Definition updateTierConfig (tierConfigs : TierConfigs) (t : DealTier)
    (config : PartialTierConfig) : TierConfigs :=
  fun t' => if DealTier_eqb t' t then mergeTierConfig (tierConfigs t) config
            else tierConfigs t'.

(** A [DealTierConfig] object as passed at run time: the optional keys
    [maxMargin] / [maxRoi] are absent ([None]), present with [undefined]
    ([Some None]), or present with a number. *)
Record DealTierConfigObject := mkDealTierConfigObject {
  obj_minMargin : Q;
  obj_maxMargin : option (option Q);
  obj_minRoi : Q;
  obj_maxRoi : option (option Q);
  obj_role : string;
  obj_color : Z
}.

(** The keys of such an object, as spread by [updateTierConfig]. *)
Definition as_partial (c : DealTierConfigObject) : PartialTierConfig :=
  mkPartialTierConfig (Some (obj_minMargin c)) (obj_maxMargin c)
    (Some (obj_minRoi c)) (obj_maxRoi c)
    (Some (obj_role c)) (Some (obj_color c)).

(** [DealAnalyzer.updateTierConfigs]: [updateTierConfig] for each entry of
    [Object.entries(tierConfigs)]; the tiers are independent, so the order
    of the entries does not matter. *)
Definition updateTierConfigs (tierConfigs : TierConfigs)
    (newConfigs : DealTier -> DealTierConfigObject) : TierConfigs :=
  fold_left (fun acc t => updateTierConfig acc t (as_partial (newConfigs t)))
    [low; medium; high] tierConfigs.

(* ------------------------------------------------------------------ *)
(** ** TaskQueue: batch insertion and queries ([src/unnamed/part_005]) *)

(** [addTasks(tasks)]: [tasks.map((task) => this.addTask(task))]. *)
Fixpoint addTasks (nts : list NewTask) (now : Z) (s : TaskQueue) : list nat * TaskQueue :=
  match nts with
  | [] => ([], s)
  | nt :: nts' =>
      let '(id, s1) := addTask nt now s in
      let '(ids, s2) := addTasks nts' now s1 in
      (id :: ids, s2)
  end.

Definition getQueueLength (s : TaskQueue) : nat := List.length (queue s).

Definition getRunningTaskCount (s : TaskQueue) : nat := size (runningTasks s).

Definition getCompletedTaskCount (s : TaskQueue) : nat := size (completedTasks s).

Definition getTask (taskId : nat) (s : TaskQueue) : option Task :=
  match runningTasks s !! taskId with
  | Some t => Some t
  | None => List.find (fun t => Nat.eqb (task_id t) taskId) (queue s)
  end.

Definition getTaskResult (taskId : nat) (s : TaskQueue) : option TaskResult :=
  completedTasks s !! taskId.

Definition clearCompleted (s : TaskQueue) : TaskQueue :=
  mkTaskQueue (queue s) (runningTasks s) ∅ (taskDurations s) (next_uuid s).

Definition clearAll (s : TaskQueue) : TaskQueue :=
  mkTaskQueue [] ∅ ∅ [] (next_uuid s).

(** [getAverageTaskDuration]: the mean of the recorded durations, 0 when
    there is none. *)
Definition getAverageTaskDuration (s : TaskQueue) : Q :=
  match taskDurations s with
  | [] => 0
  | ds => inject_Z (fold_left Z.add ds 0%Z) / inject_Z (Z.of_nat (List.length ds))
  end.

Record QueueStats := mkQueueStats {
  queueLength : nat;
  stat_runningTasks : nat;
  stat_completedTasks : nat;
  averageDuration : Q
}.

Definition getStats (s : TaskQueue) : QueueStats :=
  mkQueueStats (List.length (queue s)) (size (runningTasks s))
    (size (completedTasks s)) (getAverageTaskDuration s).

(* ------------------------------------------------------------------ *)
(** ** DealScheduler ([src/src/scheduler/scheduler.ts]) *)

(** [getCronExpression()] for an integer [cycleIntervalSeconds]:
    [Math.floor(x / 60)] is [Z.div], JS [%] is [Z.rem]. *)
Definition getCronExpression (cycleIntervalSeconds : Z) : string :=
  let minutes := Z.div cycleIntervalSeconds 60 in
  let seconds := Z.rem cycleIntervalSeconds 60 in
  if Z.ltb 0 minutes && Z.eqb seconds 0
  then ("*/" +:+ pretty minutes +:+ " * * * *")%string
  else if Z.eqb minutes 0 && Z.ltb 0 seconds then "* * * * *"%string
  else "* * * * *"%string.

(** [SchedulerStats]; [lastCycleTime] is a clock value. *)
Record SchedulerStats := mkSchedulerStats {
  totalTasks : Z;
  sched_completedTasks : Z;
  failedTasks : Z;
  sched_runningTasks : Z;
  pendingTasks : Z;
  averageTaskDuration : Q;
  lastCycleTime : Z
}.

Definition updateStats (stats : SchedulerStats) (s : TaskQueue) : SchedulerStats :=
  let queueStats := getStats s in
  let pending := Z.of_nat (queueLength queueStats) in
  let running := Z.of_nat (stat_runningTasks queueStats) in
  let completed := Z.of_nat (stat_completedTasks queueStats) in
  mkSchedulerStats (totalTasks stats) completed
    (totalTasks stats - completed - running) running pending
    (averageDuration queueStats) (lastCycleTime stats).

(** The number of [addTask] calls in a sequence of queue operations: the
    value of [stats.totalTasks] when every task is added through
    [addProductTask] / [addCategoryTask]. *)
Fixpoint count_adds (ops : list QueueOp) : nat :=
  match ops with
  | [] => 0
  | OpAddTask _ _ :: ops' => S (count_adds ops')
  | _ :: ops' => count_adds ops'
  end.

(* ------------------------------------------------------------------ *)
(** ** DealTracker ([src/src/tracker/tracker.ts]) *)

(** [Map.set] on a map held as its entries in insertion order: an existing
    key keeps its position. *)
Fixpoint map_set {A} (k : string) (v : A) (l : list (string * A)) : list (string * A) :=
  match l with
  | [] => [(k, v)]
  | (k', v') :: l' => if String.eqb k k' then (k, v) :: l' else (k', v') :: map_set k v l'
  end.

(** [Map.delete]: the entries of a Map have distinct keys. *)
Definition map_delete {A} (k : string) (l : list (string * A)) : list (string * A) :=
  List.filter (fun kv => negb (String.eqb (fst kv) k)) l.

Record DealTracker := mkDealTracker {
  priceHistoryManager : PriceHistoryManager;
  trackedDeals : list (string * Deal)
}.

Definition emptyDealTracker : DealTracker := mkDealTracker emptyPriceHistoryManager [].

Definition trackProduct (tr : DealTracker) (p : ProductData)
    : DealTracker * option PriceChangeAlert :=
  let entry := mkPriceHistoryEntry (asin p) (marketplace p) (price p) (timestamp p) in
  let '(st, alert) := addPriceEntry (priceHistoryManager tr) entry in
  (mkDealTracker st (trackedDeals tr), alert).

Definition getDealKey (deal : Deal) : string :=
  getKey (asin (product deal)) (marketplace (product deal)).

Definition trackDeal (tr : DealTracker) (deal : Deal) : DealTracker :=
  let key := getDealKey deal in
  let tr := mkDealTracker (priceHistoryManager tr) (map_set key deal (trackedDeals tr)) in
  fst (trackProduct tr (product deal)).

(** [getDeal], [clearDeal] with a valid marketplace code, whose key
    [`${asin}:${marketplace}`] is [getKey]. *)
Definition getDeal (tr : DealTracker) (a : string) (m : MarketplaceCode) : option Deal :=
  assoc_lookup (getKey a m) (trackedDeals tr).

Definition getAllDeals (tr : DealTracker) : list Deal := map snd (trackedDeals tr).

Definition clearDeal (tr : DealTracker) (a : string) (m : MarketplaceCode) : DealTracker :=
  mkDealTracker (clearHistory (priceHistoryManager tr) a m)
    (map_delete (getKey a m) (trackedDeals tr)).

Definition getTrackedDealsCount (tr : DealTracker) : nat := List.length (trackedDeals tr).

Definition clearAllDeals (tr : DealTracker) : DealTracker :=
  mkDealTracker (clearAllHistory (priceHistoryManager tr)) [].

(* ------------------------------------------------------------------ *)
(** ** Spec-side notions used in the statements *)

Definition media_params : FeeCalculationParams :=
  mkFeeCalculationParams 100 "default"%string FBM DE None None (Some true).


(** A tier band is satisfied by the metrics pair [(m, r)]. *)
Definition band_satisfied (c : DealTierConfig) (m r : Q) : Prop :=
  minMargin c <= m /\
  match maxMargin c with None => True | Some mx => m <= mx end /\
  minRoi c <= r /\
  match maxRoi c with None => True | Some mx => r <= mx end.

(** A [DealFilter] with one criterion replaced. *)
Definition with_minMargin (f : DealFilter) (v : Q) : DealFilter :=
  mkDealFilter v (filter_minRoi f) (filter_minProfit f) (filter_maxPrice f)
    (filter_minRating f) (filter_maxSalesRank f) (filter_marketplaces f).
Definition with_minRoi (f : DealFilter) (v : Q) : DealFilter :=
  mkDealFilter (filter_minMargin f) v (filter_minProfit f) (filter_maxPrice f)
    (filter_minRating f) (filter_maxSalesRank f) (filter_marketplaces f).
Definition with_minProfit (f : DealFilter) (v : Q) : DealFilter :=
  mkDealFilter (filter_minMargin f) (filter_minRoi f) v (filter_maxPrice f)
    (filter_minRating f) (filter_maxSalesRank f) (filter_marketplaces f).
Definition with_maxPrice (f : DealFilter) (v : Q) : DealFilter :=
  mkDealFilter (filter_minMargin f) (filter_minRoi f) (filter_minProfit f) v
    (filter_minRating f) (filter_maxSalesRank f) (filter_marketplaces f).
Definition with_minRating (f : DealFilter) (v : Q) : DealFilter :=
  mkDealFilter (filter_minMargin f) (filter_minRoi f) (filter_minProfit f)
    (filter_maxPrice f) v (filter_maxSalesRank f) (filter_marketplaces f).
Definition with_maxSalesRank (f : DealFilter) (v : Q) : DealFilter :=
  mkDealFilter (filter_minMargin f) (filter_minRoi f) (filter_minProfit f)
    (filter_maxPrice f) (filter_minRating f) v (filter_marketplaces f).
Definition with_marketplaces (f : DealFilter) (v : list MarketplaceCode) : DealFilter :=
  mkDealFilter (filter_minMargin f) (filter_minRoi f) (filter_minProfit f)
    (filter_maxPrice f) (filter_minRating f) (filter_maxSalesRank f) v.

(** [f'] weakens exactly one criterion of [f]: a lower minimum, a higher
    maximum price, a sales-rank bound that is 0 (or below: unbounded) or a
    higher positive bound, or more allowed marketplaces. Replacing a
    criterion by its neutral value is a case of it. *)
Inductive weakens (f : DealFilter) : DealFilter -> Prop :=
  | W_minMargin v : v <= filter_minMargin f -> weakens f (with_minMargin f v)
  | W_minRoi v : v <= filter_minRoi f -> weakens f (with_minRoi f v)
  | W_minProfit v : v <= filter_minProfit f -> weakens f (with_minProfit f v)
  | W_maxPrice v : filter_maxPrice f <= v -> weakens f (with_maxPrice f v)
  | W_minRating v : v <= filter_minRating f -> weakens f (with_minRating f v)
  | W_maxSalesRank v :
      v <= 0 \/ (0 < filter_maxSalesRank f /\ filter_maxSalesRank f <= v) ->
      weakens f (with_maxSalesRank f v)
  | W_marketplaces v :
      (forall m, In m (filter_marketplaces f) -> In m v) ->
      weakens f (with_marketplaces f v).

(** Entry [e] is recorded under the key [(a, m)]. *)
Definition same_key (e : PriceHistoryEntry) (a : string) (m : MarketplaceCode) : bool :=
  String.eqb (entry_asin e) a &&
  (if MarketplaceCode_eq_dec (entry_marketplace e) m then true else false).

(** The price of the last entry of [es] recorded under [(a, m)]. *)
Fixpoint last_price_for (es : list PriceHistoryEntry) (a : string)
    (m : MarketplaceCode) : option Q :=
  match es with
  | [] => None
  | e :: es' =>
      match last_price_for es' a m with
      | Some p => Some p
      | None => if same_key e a m then Some (entry_price e) else None
      end
  end.

(** The entries of [es] recorded under [(a, m)], in insertion order. *)
Definition entries_for (es : list PriceHistoryEntry) (a : string)
    (m : MarketplaceCode) : list PriceHistoryEntry :=
  List.filter (fun e => same_key e a m) es.

(** The last [n] elements of [l]. *)
Definition lastn {A} (n : nat) (l : list A) : list A :=
  skipn (List.length l - n) l.

(** The bookkeeping invariant of a [TaskQueue]: pending ids are distinct
    and not running, the running map is keyed by task id, and every id was
    drawn from the uuid supply. *)
Definition queue_inv (s : TaskQueue) : Prop :=
  NoDup (map task_id (queue s)) /\
  (forall t, In t (queue s) -> runningTasks s !! task_id t = None) /\
  (forall k t, runningTasks s !! k = Some t -> task_id t = k) /\
  (forall t, In t (queue s) -> (task_id t < next_uuid s)%nat) /\
  (forall k t, runningTasks s !! k = Some t -> (k < next_uuid s)%nat).

(** Task [k] is neither pending nor running, and its id is already drawn. *)
Definition gone (k : nat) (s : TaskQueue) : Prop :=
  ~ In k (map task_id (queue s)) /\ runningTasks s !! k = None /\
  (k < next_uuid s)%nat.

(** A queue with one task (no retries left after its first failure)
    that has just been dequeued. *)
Definition one_retry_task : NewTask :=
  mkNewTask TProduct "B08N5WRWNW"%string DE 1 None None None 1 None.

Definition one_running_ops : list QueueOp :=
  [OpAddTask one_retry_task 0; OpGetNextTask 1].

(** Sample data for the witnesses. *)
Definition sample_product : ProductData :=
  mkProductData "B08N5WRWNW" DE "Test Product" 100 "EUR" true (45 # 10) 100 1000
    "Seller" true None "https://www.amazon.de/dp/B08N5WRWNW" 0.


Definition sample_tiers : TierConfigs := fun t =>
  match t with
  | high => mkDealTierConfig 50 None 100 None "high-deals" 65280
  | medium => mkDealTierConfig 30 (Some 50) 50 (Some 100) "medium-deals" 16776960
  | low => mkDealTierConfig 15 (Some 30) 25 (Some 50) "low-deals" 16711680
  end.

(** The fee breakdown of a 100 EUR FBA sale in DE, default category. *)
Definition sample_fees : FeeBreakdown :=
  match calculateFees (mkFeeCalculationParams 100 "default" FBA DE None None None) with
  | inr fb => fb
  | inl _ => mkFeeBreakdown 0 0 0 0 0 0
  end.

Definition sample_deal : Deal :=
  mkDeal 0 sample_product (calculateMetrics 100 20 20) sample_fees low FBA 0.

Definition sample_filter : DealFilter :=
  mkDealFilter 50 100 10 200 4 5000 [DE; FR].

Definition entry_at (p : Q) (ts : Z) : PriceHistoryEntry :=
  mkPriceHistoryEntry "B08N5WRWNW" DE p ts.

(* ------------------------------------------------------------------ *)
(** ** Notions used in the statements of the further properties *)

(** [a] may stand before [b] in the queue: higher priority first. *)
Definition prio_ge (a b : Task) : Prop := (priority b <= priority a)%Z.

(** A result is kept only under an id already drawn that is neither pending
    nor running. *)
Definition results_inv (s : TaskQueue) : Prop :=
  forall k r, completedTasks s !! k = Some r ->
    (k < next_uuid s)%nat /\ ~ In k (map task_id (queue s)) /\ runningTasks s !! k = None.

(** Every task drawn is pending, running or has a result. *)
Definition count_inv (s : TaskQueue) : Prop :=
  (List.length (queue s) + size (runningTasks s) + size (completedTasks s))%nat = next_uuid s.

(** The invariants of a reachable queue. *)
Definition full_inv (s : TaskQueue) : Prop :=
  queue_inv s /\ results_inv s /\ count_inv s.

(** Three tasks of priority 1 added; the first, allowed two attempts, has
    been dequeued. *)
Definition two_retry_task : NewTask :=
  mkNewTask TProduct "B08N5WRWNW"%string DE 1 None None None 2 None.

Definition two_running_ops : list QueueOp :=
  [OpAddTask two_retry_task 0; OpAddTask one_retry_task 0; OpAddTask two_retry_task 0;
   OpGetNextTask 1].

(** [l] is ordered by [key], descending or ascending. *)
Definition ordered_by (key : Deal -> Q) (desc : bool) (l : list Deal) : Prop :=
  Sorted (fun a b => if desc then key b <= key a else key a <= key b) l.

(** The deals of [l] whose [key] equals [v], in their order in [l]. *)
Definition with_key (key : Deal -> Q) (v : Q) (l : list Deal) : list Deal :=
  List.filter (fun d => Qeq_bool (key d) v) l.

(** The value [getTopDeals] ranks by. *)
Definition sortKey_value (k : SortKey) (d : Deal) : Q :=
  match k with
  | by_margin => margin (metrics d)
  | by_roi => roi (metrics d)
  | by_profit => profit (metrics d)
  end.

(** [params] with another sale price. *)
Definition with_salePrice (params : FeeCalculationParams) (y : Q) : FeeCalculationParams :=
  mkFeeCalculationParams y (param_category params) (param_fulfillmentType params)
    (param_marketplace params) (param_productWeight params)
    (param_productDimensions params) (param_isMedia params).

(** A deal of [sample_product] with the given margin and ROI. *)
Definition deal_with (m r : Q) : Deal :=
  mkDeal 0 sample_product (mkDealMetrics 100 50 10 40 m r) sample_fees low FBA 0.

(** The calls a user of [DealTracker] makes on it. *)
Inductive TrackerOp :=
  | OpTrackDeal (deal : Deal)
  | OpClearDeal (a : string) (m : MarketplaceCode)
  | OpClearAllDeals.

Definition exec_tracker (op : TrackerOp) (tr : DealTracker) : DealTracker :=
  match op with
  | OpTrackDeal d => trackDeal tr d
  | OpClearDeal a m => clearDeal tr a m
  | OpClearAllDeals => clearAllDeals tr
  end.

Fixpoint run_tracker (tr : DealTracker) (ops : list TrackerOp) : DealTracker :=
  match ops with
  | [] => tr
  | op :: ops' => run_tracker (exec_tracker op tr) ops'
  end.

(** The deal map of a tracker keeps each deal under its own key, once; it
    has the keys of the price history. *)
Definition tracker_inv (tr : DealTracker) : Prop :=
  List.NoDup (map fst (trackedDeals tr)) /\
  Forall (fun kd => fst kd = getDealKey (snd kd)) (trackedDeals tr) /\
  (forall k, assoc_lookup k (trackedDeals tr) = None <->
             history (priceHistoryManager tr) !! k = None).

(* ================================================================== *)
(** * Proofs *)

Lemma Qltb_false_iff (a b : Q) : Qltb a b = false <-> b <= a.
Proof.
  unfold Qltb. rewrite <- Qle_bool_iff. destruct (Qle_bool b a); simpl; split; congruence.
Qed.

Lemma Qgtb_false_iff (a b : Q) : Qgtb a b = false <-> a <= b.
Proof. unfold Qgtb. apply Qltb_false_iff. Qed.

Lemma Qgtb_true_iff (a b : Q) : Qgtb a b = true <-> b < a.
Proof.
  unfold Qgtb, Qltb. rewrite negb_true_iff.
  split; intro H.
  - apply Qnot_le_lt. intro H'. apply Qle_bool_iff in H'. congruence.
  - destruct (Qle_bool a b) eqn:E; [|reflexivity].
    apply Qle_bool_iff in E. exfalso. apply (Qlt_not_le _ _ H E).
Qed.

(** ** C1: the total of a fee breakdown *)

(** C1 (counterexample). For a media product ([isMedia = true]) the total
    of the returned breakdown is not the sum of the five itemised fields:
    sale price 100, default category, FBM, DE gives 15 + 0 + 0 + 19 + 3.50
    = 37.50, total 38.49. *)
Lemma calculateFees_total_media_counterexample :
  exists fb, calculateFees media_params = inr fb /\ ~ (total fb == itemised_sum fb).
Proof.
  eexists. split; [reflexivity|].
  unfold Qeq; vm_compute. discriminate.
Qed.

(** C1 (amended). For every breakdown [fb] returned by [calculateFees],
    [total] is the sum of the five itemised fields plus the closing fee,
    which is [CLOSING_FEES[marketplace]] (0.99) when [isMedia] is true and 0
    otherwise; so without [isMedia] the total is exactly the sum of the
    five fields. *)
Theorem calculateFees_total_sum (params : FeeCalculationParams) (fb : FeeBreakdown)
    (Hfb : calculateFees params = inr fb) :
  total fb ==
    itemised_sum fb +
    (if truthy (param_isMedia params) then CLOSING_FEES (param_marketplace params) else 0).
Proof.
  unfold calculateFees, closingFeeOf in Hfb.
  destruct (decimal_mul _ _); [discriminate|].
  injection Hfb as <-. unfold itemised_sum; simpl. ring.
Qed.

(** ** C3: tier classification *)

Lemma checkTier_spec (cfgs : TierConfigs) (deal : Deal) (t : DealTier) :
  checkTier cfgs deal t = true <->
  band_satisfied (cfgs t) (margin (metrics deal)) (roi (metrics deal)).
Proof.
  unfold checkTier, band_satisfied.
  destruct (Qltb (margin (metrics deal)) (minMargin (cfgs t))) eqn:E1.
  { split; [discriminate|]. intros [H _].
    apply Qltb_false_iff in H. congruence. }
  apply Qltb_false_iff in E1.
  destruct (match maxMargin (cfgs t) with
            | Some mx => Qgtb (margin (metrics deal)) mx | None => false end) eqn:E2.
  { split; [discriminate|]. intros [_ [H _]].
    destruct (maxMargin (cfgs t)) as [mx|]; [|discriminate].
    apply Qgtb_false_iff in H. congruence. }
  destruct (Qltb (roi (metrics deal)) (minRoi (cfgs t))) eqn:E3.
  { split; [discriminate|]. intros [_ [_ [H _]]].
    apply Qltb_false_iff in H. congruence. }
  apply Qltb_false_iff in E3.
  destruct (match maxRoi (cfgs t) with
            | Some mx => Qgtb (roi (metrics deal)) mx | None => false end) eqn:E4.
  { split; [discriminate|]. intros [_ [_ [_ H]]].
    destruct (maxRoi (cfgs t)) as [mx|]; [|discriminate].
    apply Qgtb_false_iff in H. congruence. }
  split; [intros _|reflexivity].
  repeat split; try assumption.
  - destruct (maxMargin (cfgs t)); [apply Qgtb_false_iff; assumption|exact I].
  - destruct (maxRoi (cfgs t)); [apply Qgtb_false_iff; assumption|exact I].
Qed.

Lemma checkTier_false (cfgs : TierConfigs) (deal : Deal) (t : DealTier) :
  checkTier cfgs deal t = false <->
  ~ band_satisfied (cfgs t) (margin (metrics deal)) (roi (metrics deal)).
Proof.
  rewrite <- checkTier_spec. destruct (checkTier cfgs deal t); split; congruence.
Qed.

(** C3. [classify] returns the first tier, in the order high, medium, low,
    whose band (margin >= minMargin, margin <= maxMargin if set,
    roi >= minRoi, roi <= maxRoi if set) is satisfied, with
    [qualifies = true]; when no band is satisfied it returns [low] with
    [qualifies = false]. *)
Theorem classify_first_band (cfgs : TierConfigs) (deal : Deal) :
  let m := margin (metrics deal) in
  let r := roi (metrics deal) in
  let res := classify cfgs deal in
  (band_satisfied (cfgs high) m r ->
     result_tier res = high /\ qualifies res = true) /\
  (~ band_satisfied (cfgs high) m r -> band_satisfied (cfgs medium) m r ->
     result_tier res = medium /\ qualifies res = true) /\
  (~ band_satisfied (cfgs high) m r -> ~ band_satisfied (cfgs medium) m r ->
   band_satisfied (cfgs low) m r ->
     result_tier res = low /\ qualifies res = true) /\
  (~ band_satisfied (cfgs high) m r -> ~ band_satisfied (cfgs medium) m r ->
   ~ band_satisfied (cfgs low) m r ->
     result_tier res = low /\ qualifies res = false).
Proof.
  intros m r res. subst m r res. unfold classify.
  repeat split; intros;
    repeat match goal with
           | H : band_satisfied _ _ _ |- _ => apply checkTier_spec in H
           | H : ~ band_satisfied _ _ _ |- _ => apply checkTier_false in H
           end;
    repeat match goal with H : checkTier _ _ _ = _ |- _ => rewrite H; clear H end;
    reflexivity.
Qed.

(** ** C4: deal metrics *)

(** C4. The metrics of [calculateMetrics(salePrice, costPrice, totalFees)]:
    profit = salePrice - costPrice - totalFees; margin = profit / salePrice
    * 100 when salePrice > 0 and 0 otherwise; roi = profit / costPrice * 100
    when costPrice > 0 and 0 otherwise. [calculateMetrics] is total (no
    error for zero or negative prices), and the metrics of a deal produced
    by [analyze] are [calculateMetrics] of its price, its cost and the total
    of its fee breakdown. *)
Theorem calculateMetrics_spec (sp cp tf : Q) :
  let ms := calculateMetrics sp cp tf in
  salePrice ms = sp /\ costPrice ms = cp /\ totalFees ms = tf /\
  profit ms = sp - cp - tf /\
  (0 < sp -> margin ms = profit ms / sp * 100) /\
  (sp <= 0 -> margin ms = 0) /\
  (0 < cp -> roi ms = profit ms / cp * 100) /\
  (cp <= 0 -> roi ms = 0) /\
  (forall cfgs uuid now p o d,
     analyze cfgs uuid now p o = inr d ->
     metrics d = calculateMetrics (price p) (opt_costPrice o) (total (feeBreakdown d))).
Proof.
  intros ms. subst ms.
  do 4 (split; [reflexivity|]).
  split; [|split; [|split; [|split]]]; [unfold calculateMetrics; simpl; intros H ..|].
  5: { intros cfgs uuid now p o d Hd. unfold analyze in Hd.
       destruct (calculateFees _); [discriminate|]. injection Hd as <-. reflexivity. }
  - destruct (Qgtb sp 0) eqn:E; [reflexivity|].
    apply Qgtb_false_iff in E. exfalso. apply (Qlt_not_le _ _ H E).
  - destruct (Qgtb sp 0) eqn:E; [|reflexivity].
    apply Qgtb_true_iff in E. exfalso. apply (Qlt_not_le _ _ E H).
  - destruct (Qgtb cp 0) eqn:E; [reflexivity|].
    apply Qgtb_false_iff in E. exfalso. apply (Qlt_not_le _ _ H E).
  - destruct (Qgtb cp 0) eqn:E; [|reflexivity].
    apply Qgtb_true_iff in E. exfalso. apply (Qlt_not_le _ _ E H).
Qed.

(** ** C6: filtering is a conjunction *)

Lemma passesFilter_true_iff (deal : Deal) (f : DealFilter) :
  passesFilter deal f = true <->
  filter_minMargin f <= margin (metrics deal) /\
  filter_minRoi f <= roi (metrics deal) /\
  filter_minProfit f <= profit (metrics deal) /\
  price (product deal) <= filter_maxPrice f /\
  filter_minRating f <= rating (product deal) /\
  (filter_maxSalesRank f <= 0 \/ salesRank (product deal) <= filter_maxSalesRank f) /\
  In (marketplace (product deal)) (filter_marketplaces f).
Proof.
  unfold passesFilter.
  destruct (Qltb (margin (metrics deal)) (filter_minMargin f)) eqn:E1;
    [split; [discriminate|]; intros [H _]; apply Qltb_false_iff in H; congruence|].
  destruct (Qltb (roi (metrics deal)) (filter_minRoi f)) eqn:E2;
    [split; [discriminate|]; intros [_ [H _]]; apply Qltb_false_iff in H; congruence|].
  destruct (Qltb (profit (metrics deal)) (filter_minProfit f)) eqn:E3;
    [split; [discriminate|]; intros [_ [_ [H _]]]; apply Qltb_false_iff in H; congruence|].
  destruct (Qgtb (price (product deal)) (filter_maxPrice f)) eqn:E4;
    [split; [discriminate|]; intros [_ [_ [_ [H _]]]]; apply Qgtb_false_iff in H; congruence|].
  destruct (Qltb (rating (product deal)) (filter_minRating f)) eqn:E5;
    [split; [discriminate|]; intros [_ [_ [_ [_ [H _]]]]]; apply Qltb_false_iff in H; congruence|].
  apply Qltb_false_iff in E1, E2, E3, E5. apply Qgtb_false_iff in E4.
  destruct (Qgtb (filter_maxSalesRank f) 0 && Qgtb (salesRank (product deal)) (filter_maxSalesRank f)) eqn:E6.
  { split; [discriminate|]. intros [_ [_ [_ [_ [_ [H _]]]]]].
    apply andb_true_iff in E6 as [Ea Eb].
    apply Qgtb_true_iff in Ea, Eb.
    exfalso; destruct H as [H|H]; [apply (Qlt_not_le _ _ Ea H)|apply (Qlt_not_le _ _ Eb H)]. }
  assert (Hrank : filter_maxSalesRank f <= 0 \/
                  salesRank (product deal) <= filter_maxSalesRank f).
  { apply andb_false_iff in E6 as [Ea|Eb].
    - left. apply Qgtb_false_iff in Ea. exact Ea.
    - right. apply Qgtb_false_iff in Eb. exact Eb. }
  unfold includes.
  destruct (in_dec MarketplaceCode_eq_dec (marketplace (product deal)) (filter_marketplaces f))
    as [Hin|Hin]; simpl.
  - split; [intros _|reflexivity]. repeat split; assumption.
  - split; [discriminate|]. intros [_ [_ [_ [_ [_ [_ H]]]]]]. contradiction.
Qed.

(** C6. Weakening any single criterion of a filter (in particular
    replacing it by its neutral value) only grows the result of [filter]
    on a fixed collection: every deal kept before is kept after. *)
Theorem filter_weaken_superset (deals : list Deal) (f f' : DealFilter) :
  weakens f f' ->
  forall deal, In deal (filter deals f) -> In deal (filter deals f').
Proof.
  intros Hw deal Hin. unfold filter in *.
  apply filter_In in Hin as [Hin Hp]. apply filter_In. split; [exact Hin|].
  apply passesFilter_true_iff in Hp.
  destruct Hp as [H1 [H2 [H3 [H4 [H5 [H6 H7]]]]]].
  apply passesFilter_true_iff.
  destruct Hw as [v Hv|v Hv|v Hv|v Hv|v Hv|v Hv|v Hv]; simpl;
    repeat split; try assumption; try (eapply Qle_trans; eassumption).
  - destruct Hv as [Hv|[Hpos Hv]]; [left; exact Hv|].
    destruct H6 as [H6|H6].
    + exfalso. apply (Qlt_not_le _ _ Hpos H6).
    + right. eapply Qle_trans; eassumption.
  - apply Hv. exact H7.
Qed.

(** ** C8: batch analysis *)









(** ** C5, C7: the price history *)

Lemma string_length_append (s t : string) :
  String.length (String.append s t) = (String.length s + String.length t)%nat.
Proof. induction s as [|c s IH]; simpl; [reflexivity|rewrite IH; reflexivity]. Qed.

Lemma MarketplaceCode_str_length (m : MarketplaceCode) :
  String.length (MarketplaceCode_str m) = 2%nat.
Proof. destruct m; reflexivity. Qed.

(** Distinct [(asin, marketplace)] pairs have distinct keys: the
    marketplace code is the last two characters. *)
Lemma getKey_inj (a1 a2 : string) (m1 m2 : MarketplaceCode) :
  getKey a1 m1 = getKey a2 m2 -> a1 = a2 /\ m1 = m2.
Proof.
  unfold getKey. revert a2.
  induction a1 as [|c1 a1 IH]; intros [|c2 a2] H; simpl in H.
  - injection H as H. split; [reflexivity|].
    apply (f_equal (fun s => String.eqb s (MarketplaceCode_str m1))) in H.
    destruct m1, m2; vm_compute in H; congruence.
  - injection H as _ H. apply (f_equal String.length) in H.
    rewrite !string_length_append, !MarketplaceCode_str_length in H. simpl in H. lia.
  - injection H as _ H. apply (f_equal String.length) in H.
    rewrite !string_length_append, !MarketplaceCode_str_length in H. simpl in H. lia.
  - injection H as -> H. destruct (IH a2 H) as [-> ->]. split; reflexivity.
Qed.

Lemma same_key_spec (e : PriceHistoryEntry) (a : string) (m : MarketplaceCode) :
  same_key e a m = true <-> getKey (entry_asin e) (entry_marketplace e) = getKey a m.
Proof.
  unfold same_key. rewrite andb_true_iff, String.eqb_eq.
  destruct (MarketplaceCode_eq_dec (entry_marketplace e) m) as [Hm|Hm].
  - split; [intros [-> _]; rewrite Hm; reflexivity|].
    intros H. apply getKey_inj in H as [-> _]. split; reflexivity.
  - split; [intros [_ H]; discriminate|].
    intros H. apply getKey_inj in H as [_ H]. contradiction.
Qed.

Lemma lastPrices_addPriceEntries (a : string) (m : MarketplaceCode) :
  forall (es : list PriceHistoryEntry) (st : PriceHistoryManager),
  lastPrices (addPriceEntries st es) !! getKey a m =
    match last_price_for es a m with
    | Some p => Some p
    | None => lastPrices st !! getKey a m
    end.
Proof.
  induction es as [|e es IH]; intros st; simpl; [reflexivity|].
  rewrite IH. destruct (last_price_for es a m) as [p|]; [reflexivity|].
  simpl. destruct (same_key e a m) eqn:Hk.
  - apply same_key_spec in Hk. rewrite Hk. apply lookup_insert_eq.
  - rewrite lookup_insert_ne; [reflexivity|].
    intros Heq. apply (proj2 (same_key_spec e a m)) in Heq. congruence.
Qed.

Lemma lastPrices_run (es : list PriceHistoryEntry) (a : string) (m : MarketplaceCode) :
  lastPrices (addPriceEntries emptyPriceHistoryManager es) !! getKey a m =
    last_price_for es a m.
Proof.
  rewrite lastPrices_addPriceEntries. destruct (last_price_for es a m); reflexivity.
Qed.

(** C5. After any sequence [es] of [addPriceEntry] calls, the call for an
    entry [e] with price p returns no alert exactly when no price was
    recorded before for its (asin, marketplace) key (first observation) or
    the last recorded price p0 equals p; an alert carries oldPrice = p0,
    newPrice = p, changeAmount = p - p0, and changePercentage =
    changeAmount / p0 * 100 when p0 > 0 and 0 when p0 <= 0. *)
Theorem addPriceEntry_alert_spec (es : list PriceHistoryEntry) (e : PriceHistoryEntry) :
  let st := addPriceEntries emptyPriceHistoryManager es in
  let alert := snd (addPriceEntry st e) in
  let p := entry_price e in
  let last := last_price_for es (entry_asin e) (entry_marketplace e) in
  (alert = None <-> (last = None \/ exists p0, last = Some p0 /\ p0 == p)) /\
  (forall a, alert = Some a ->
     exists p0, last = Some p0 /\ ~ p0 == p /\
       oldPrice a = p0 /\ newPrice a = p /\ changeAmount a = p - p0 /\
       (0 < p0 -> changePercentage a = changeAmount a / p0 * 100) /\
       (p0 <= 0 -> changePercentage a = 0) /\
       alert_asin a = entry_asin e /\ alert_marketplace a = entry_marketplace e /\
       alert_timestamp a = entry_timestamp e).
Proof.
  intros st alert p last. subst st alert p last.
  unfold addPriceEntry; simpl snd.
  rewrite lastPrices_run.
  destruct (last_price_for es (entry_asin e) (entry_marketplace e)) as [p0|].
  - destruct (Qeq_bool p0 (entry_price e)) eqn:Heq; simpl.
    + apply Qeq_bool_iff in Heq. split.
      * split; [intros _; right; exists p0; split; [reflexivity|exact Heq]|reflexivity].
      * intros a Ha. discriminate.
    + split.
      * split; [discriminate|]. intros [H|[p1 [H1 H2]]]; [discriminate|].
        injection H1 as <-. apply Qeq_bool_iff in H2. congruence.
      * intros a Ha. injection Ha as <-. exists p0.
        split; [reflexivity|]. split.
        { intros H. apply Qeq_bool_iff in H. congruence. }
        simpl. repeat split; intros H.
        -- destruct (Qgtb p0 0) eqn:E; [reflexivity|].
           apply Qgtb_false_iff in E. exfalso. apply (Qlt_not_le _ _ H E).
        -- destruct (Qgtb p0 0) eqn:E; [|reflexivity].
           apply Qgtb_true_iff in E. exfalso. apply (Qlt_not_le _ _ E H).
  - simpl. split.
    + split; [intros _; left; reflexivity|reflexivity].
    + intros a Ha. discriminate.
Qed.

Lemma tl_skipn {A} (l : list A) : List.tl l = skipn 1 l.
Proof. destruct l; reflexivity. Qed.

(** One capped append keeps "the last [n] entries". *)
Lemma cap_lastn {A} (n : nat) (L : list A) (x : A) :
  (1 <= n)%nat ->
  (if Nat.ltb n (List.length (lastn n L ++ [x]))
   then List.tl (lastn n L ++ [x]) else lastn n L ++ [x]) = lastn n (L ++ [x]).
Proof.
  intros Hn. unfold lastn.
  rewrite length_app, length_skipn. simpl.
  destruct (Nat.ltb_spec n (List.length L - (List.length L - n) + 1)) as [Hlt|Hge].
  - rewrite tl_skipn, !skipn_app, skipn_skipn, length_skipn, length_app. simpl.
    replace (1 - (List.length L - (List.length L - n)))%nat with 0%nat by lia.
    replace (List.length L + 1 - n - List.length L)%nat with 0%nat by lia.
    f_equal. f_equal. lia.
  - rewrite !skipn_app, length_app. simpl.
    replace (List.length L - n)%nat with 0%nat by lia.
    replace (List.length L + 1 - n)%nat with 0%nat by lia.
    reflexivity.
Qed.

Lemma lastn_length {A} (n : nat) (l : list A) : (List.length (lastn n l) <= n)%nat.
Proof. unfold lastn. rewrite length_skipn. lia. Qed.

Lemma history_addPriceEntries (a : string) (m : MarketplaceCode) :
  forall (es : list PriceHistoryEntry) (st : PriceHistoryManager)
         (L : list PriceHistoryEntry),
  match history st !! getKey a m with
  | Some h => h = lastn MAX_HISTORY L
  | None => L = []
  end ->
  match history (addPriceEntries st es) !! getKey a m with
  | Some h => h = lastn MAX_HISTORY (L ++ entries_for es a m)
  | None => L ++ entries_for es a m = []
  end.
Proof.
  induction es as [|e es IH]; intros st L Hst; simpl.
  - rewrite app_nil_r. exact Hst.
  - unfold entries_for in *. simpl.
    destruct (same_key e a m) eqn:Hk.
    + replace (L ++ e :: List.filter (fun e0 => same_key e0 a m) es)
        with ((L ++ [e]) ++ List.filter (fun e0 => same_key e0 a m) es)
        by (rewrite <- app_assoc; reflexivity).
      apply IH. simpl. apply same_key_spec in Hk. rewrite Hk, lookup_insert_eq.
      assert (Hh : match history st !! getKey a m with Some h => h | None => [] end
                   = lastn MAX_HISTORY L).
      { destruct (history st !! getKey a m); [exact Hst|subst L; reflexivity]. }
      rewrite Hh. apply cap_lastn. unfold MAX_HISTORY. lia.
    + apply IH. simpl. rewrite lookup_insert_ne; [exact Hst|].
      intros Heq. apply (proj2 (same_key_spec e a m)) in Heq. congruence.
Qed.

(** C7. After any sequence [es] of [addPriceEntry] calls, the series
    stored under the key of (asin [a], marketplace [m]) holds at most 1000
    entries and is exactly the last (at most) 1000 entries recorded for
    that key, in insertion order: older entries are evicted first. No series
    is stored for a key that never received an entry. *)
Theorem history_capped_fifo (es : list PriceHistoryEntry) (a : string)
    (m : MarketplaceCode) :
  match history (addPriceEntries emptyPriceHistoryManager es) !! getKey a m with
  | Some h => h = lastn MAX_HISTORY (entries_for es a m) /\
              (List.length h <= MAX_HISTORY)%nat
  | None => entries_for es a m = []
  end.
Proof.
  pose proof (history_addPriceEntries a m es emptyPriceHistoryManager [] eq_refl) as H.
  simpl in H.
  destruct (history (addPriceEntries emptyPriceHistoryManager es) !! getKey a m).
  - split; [exact H|]. rewrite H. apply lastn_length.
  - exact H.
Qed.

(** ** C9, C2, C10: the task queue *)

Lemma insertByPriority_perm (t : Task) (l : list Task) :
  Permutation (insertByPriority t l) (t :: l).
Proof.
  induction l as [|u l IH]; simpl; [reflexivity|].
  destruct (Z.leb (priority u) (priority t)); [reflexivity|].
  rewrite IH. apply perm_swap.
Qed.

Lemma sortByPriority_perm (l : list Task) : Permutation (sortByPriority l) l.
Proof.
  induction l as [|t l IH]; simpl; [reflexivity|].
  rewrite insertByPriority_perm, IH. reflexivity.
Qed.

Lemma In_sortByPriority (t : Task) (l : list Task) :
  In t (sortByPriority l) <-> In t l.
Proof. split; apply Permutation_in; [|symmetry]; apply sortByPriority_perm. Qed.

Lemma In_task_ids (t : Task) (l : list Task) :
  In t l -> In (task_id t) (map task_id l).
Proof. apply in_map. Qed.

Lemma getNextTask_inv (now : Z) (s : TaskQueue) :
  queue_inv s -> queue_inv (snd (getNextTask now s)).
Proof.
  unfold getNextTask. destruct (queue s) as [|t q] eqn:Hq; [tauto|].
  intros [Hnd [Hpr [Hkey [Hbq Hbr]]]]; unfold queue_inv; simpl.
  rewrite Hq in Hnd, Hpr, Hbq. simpl in Hnd. inversion Hnd as [|? ? Hni Hnd']; subst.
  repeat split.
  - exact Hnd'.
  - intros u Hu. rewrite lookup_insert_ne; [apply Hpr; right; exact Hu|].
    simpl. intros Heq. apply Hni. rewrite Heq. apply list_elem_of_In, In_task_ids, Hu.
  - intros k u Hu. destruct (decide (task_id t = k)) as [<-|Hne].
    + rewrite lookup_insert_eq in Hu. injection Hu as <-. reflexivity.
    + rewrite lookup_insert_ne in Hu by exact Hne. eapply Hkey; eassumption.
  - intros u Hu. apply Hbq. right. exact Hu.
  - intros k u Hu. destruct (decide (task_id t = k)) as [<-|Hne].
    + apply Hbq. left. reflexivity.
    + rewrite lookup_insert_ne in Hu by exact Hne. eapply Hbr; eassumption.
Qed.

Lemma getNextTasks_loop_inv (fuel : nat) (now : Z) :
  forall s, queue_inv s -> queue_inv (snd (getNextTasks_loop fuel now s)).
Proof.
  induction fuel as [|fuel IH]; intros s Hs; simpl; [exact Hs|].
  destruct (queue s) eqn:Hq; [exact Hs|].
  destruct (getNextTask now s) as [ot s1] eqn:E1.
  pose proof (getNextTask_inv now s Hs) as H1. rewrite E1 in H1. simpl in H1.
  specialize (IH s1 H1).
  destruct (getNextTasks_loop fuel now s1) as [ts s2]. exact IH.
Qed.

Lemma ids_sort_snoc (q : list Task) (t : Task) :
  Permutation (map task_id (sortByPriority (q ++ [t]))) (task_id t :: map task_id q).
Proof.
  rewrite sortByPriority_perm, map_app. simpl.
  rewrite Permutation_app_comm. reflexivity.
Qed.

Lemma addTask_inv (nt : NewTask) (now : Z) (s : TaskQueue) :
  queue_inv s -> queue_inv (snd (addTask nt now s)).
Proof.
  intros [Hnd [Hpr [Hkey [Hbq Hbr]]]]; unfold queue_inv, addTask; simpl.
  repeat split.
  - rewrite ids_sort_snoc. simpl. apply NoDup_cons. split; [|exact Hnd].
    rewrite list_elem_of_In. intros Hin. apply in_map_iff in Hin as [u [Hu Hin]].
    specialize (Hbq u Hin). lia.
  - intros u Hu. apply In_sortByPriority, in_app_or in Hu as [Hu|[<-|[]]].
    + apply Hpr, Hu.
    + simpl. destruct (runningTasks s !! next_uuid s) eqn:E; [|reflexivity].
      apply Hbr in E. lia.
  - exact Hkey.
  - intros u Hu. apply In_sortByPriority, in_app_or in Hu as [Hu|[<-|[]]].
    + specialize (Hbq u Hu). lia.
    + simpl. lia.
  - intros k u Hu. specialize (Hbr k u Hu). lia.
Qed.

Lemma completeTask_inv (k : nat) (r : ResultInput) (now : Z) (s : TaskQueue) :
  queue_inv s -> queue_inv (fst (completeTask k r now s)).
Proof.
  intros Hs. unfold completeTask.
  destruct (runningTasks s !! k) as [t|] eqn:Ek; [|exact Hs].
  destruct Hs as [Hnd [Hpr [Hkey [Hbq Hbr]]]]; unfold queue_inv; simpl.
  repeat split.
  - exact Hnd.
  - intros u Hu. apply lookup_delete_None. right. apply Hpr, Hu.
  - intros j u Hu. apply lookup_delete_Some in Hu as [_ Hu]. eapply Hkey, Hu.
  - exact Hbq.
  - intros j u Hu. apply lookup_delete_Some in Hu as [_ Hu]. eapply Hbr, Hu.
Qed.

Lemma failTask_inv (k : nat) (err : string) (now : Z) (s : TaskQueue) :
  queue_inv s -> queue_inv (fst (failTask k err now s)).
Proof.
  intros Hs. unfold failTask.
  destruct (runningTasks s !! k) as [t|] eqn:Ek; [|exact Hs].
  destruct Hs as [Hnd [Hpr [Hkey [Hbq Hbr]]]].
  pose proof (Hkey k t Ek) as Hid.
  destruct (Z.ltb (retryCount t + 1) (maxRetries t)); unfold queue_inv; simpl;
    repeat split.
  - rewrite ids_sort_snoc. simpl. apply NoDup_cons. split; [|exact Hnd].
    rewrite list_elem_of_In. intros Hin. apply in_map_iff in Hin as [u [Hu Hin]].
    apply Hpr in Hin. rewrite Hu, Hid in Hin. congruence.
  - intros u Hu. apply In_sortByPriority, in_app_or in Hu as [Hu|[<-|[]]].
    + apply lookup_delete_None. right. apply Hpr, Hu.
    + apply lookup_delete_None. left. simpl. symmetry. exact Hid.
  - intros j u Hu. apply lookup_delete_Some in Hu as [_ Hu]. eapply Hkey, Hu.
  - intros u Hu. apply In_sortByPriority, in_app_or in Hu as [Hu|[<-|[]]].
    + apply Hbq, Hu.
    + simpl. rewrite Hid. eapply Hbr, Ek.
  - intros j u Hu. apply lookup_delete_Some in Hu as [_ Hu]. eapply Hbr, Hu.
  - exact Hnd.
  - intros u Hu. apply lookup_delete_None. right. apply Hpr, Hu.
  - intros j u Hu. apply lookup_delete_Some in Hu as [_ Hu]. eapply Hkey, Hu.
  - exact Hbq.
  - intros j u Hu. apply lookup_delete_Some in Hu as [_ Hu]. eapply Hbr, Hu.
Qed.

Lemma exec_inv (op : QueueOp) (s : TaskQueue) :
  queue_inv s -> queue_inv (exec op s).
Proof.
  destruct op; simpl.
  - apply addTask_inv.
  - apply getNextTask_inv.
  - apply getNextTasks_loop_inv.
  - apply completeTask_inv.
  - apply failTask_inv.
Qed.

Lemma run_inv (ops : list QueueOp) :
  forall s, queue_inv s -> queue_inv (run s ops).
Proof.
  induction ops as [|op ops IH]; intros s Hs; simpl; [exact Hs|].
  apply IH, exec_inv, Hs.
Qed.

Lemma emptyTaskQueue_inv : queue_inv emptyTaskQueue.
Proof.
  unfold queue_inv, emptyTaskQueue; simpl.
  split; [constructor|].
  split; [intros ? []|].
  split; [intros ? ? H; rewrite lookup_empty in H; discriminate|].
  split; [intros ? []|].
  intros ? ? H; rewrite lookup_empty in H; discriminate.
Qed.

Lemma getNextTask_running_new (now : Z) (s : TaskQueue) (k : nat) (t : Task) :
  runningTasks s !! k = None ->
  runningTasks (snd (getNextTask now s)) !! k = Some t ->
  In k (map task_id (queue s)) /\ status t = running /\ startedAt t = Some now.
Proof.
  unfold getNextTask. destruct (queue s) as [|u q]; simpl; [congruence|].
  intros Hk Ht. destruct (decide (task_id u = k)) as [<-|Hne].
  - rewrite lookup_insert_eq in Ht. injection Ht as <-.
    split; [left; reflexivity|split; reflexivity].
  - rewrite lookup_insert_ne in Ht by exact Hne. congruence.
Qed.

Lemma getNextTask_running_keep (now : Z) (s : TaskQueue) (k : nat) (t : Task) :
  queue_inv s -> runningTasks s !! k = Some t ->
  runningTasks (snd (getNextTask now s)) !! k = Some t.
Proof.
  intros [_ [Hpr _]] Hk. unfold getNextTask.
  destruct (queue s) as [|u q] eqn:Hq; simpl; [exact Hk|].
  rewrite lookup_insert_ne; [exact Hk|].
  intros Heq. assert (Hu : runningTasks s !! task_id u = None)
    by (apply Hpr; left; reflexivity).
  simpl in Heq. rewrite Heq in Hu. congruence.
Qed.

Lemma getNextTask_queue_sub (now : Z) (s : TaskQueue) (x : nat) :
  In x (map task_id (queue (snd (getNextTask now s)))) -> In x (map task_id (queue s)).
Proof.
  unfold getNextTask. destruct (queue s) as [|u q] eqn:Hq; simpl;
    [rewrite Hq; tauto|].
  intros H. right. exact H.
Qed.

Lemma getNextTask_returned (now : Z) (s : TaskQueue) (u : Task) :
  fst (getNextTask now s) = Some u -> In (task_id u) (map task_id (queue s)).
Proof.
  unfold getNextTask. destruct (queue s) as [|v q]; simpl; [discriminate|].
  intros H. injection H as <-. left. reflexivity.
Qed.

Lemma getNextTasks_loop_running_keep (fuel : nat) (now : Z) (k : nat) (t : Task) :
  forall s, queue_inv s -> runningTasks s !! k = Some t ->
  runningTasks (snd (getNextTasks_loop fuel now s)) !! k = Some t.
Proof.
  induction fuel as [|fuel IH]; intros s Hs Hk; simpl; [exact Hk|].
  destruct (queue s) eqn:Hq; [exact Hk|].
  pose proof (getNextTask_running_keep now s k t Hs Hk) as H1.
  pose proof (getNextTask_inv now s Hs) as Hs1.
  destruct (getNextTask now s) as [ot s1] eqn:E1; simpl in H1, Hs1.
  specialize (IH s1 Hs1 H1).
  destruct (getNextTasks_loop fuel now s1) as [ts s2]. exact IH.
Qed.

Lemma getNextTasks_loop_running_new (fuel : nat) (now : Z) (k : nat) (t : Task) :
  forall s, queue_inv s -> runningTasks s !! k = None ->
  runningTasks (snd (getNextTasks_loop fuel now s)) !! k = Some t ->
  In k (map task_id (queue s)) /\ status t = running /\ startedAt t = Some now.
Proof.
  induction fuel as [|fuel IH]; intros s Hs Hk Ht; simpl in Ht; [congruence|].
  destruct (queue s) eqn:Hq; [simpl in Ht; congruence|].
  pose proof (getNextTask_inv now s Hs) as Hs1.
  pose proof (getNextTask_running_new now s k) as Hnew.
  pose proof (getNextTask_queue_sub now s k) as Hsub.
  rewrite Hq in Hnew, Hsub.
  destruct (getNextTask now s) as [ot s1] eqn:E1; simpl in Hs1, Hnew, Hsub.
  destruct (getNextTasks_loop fuel now s1) as [ts s2] eqn:E2; simpl in Ht.
  destruct (runningTasks s1 !! k) as [t1|] eqn:Hk1.
  - pose proof (getNextTasks_loop_running_keep fuel now k t1 s1 Hs1 Hk1) as Hkeep.
    rewrite E2 in Hkeep. simpl in Hkeep. rewrite Hkeep in Ht. injection Ht as <-.
    apply (Hnew t1 Hk eq_refl).
  - pose proof (IH s1 Hs1 Hk1) as H. rewrite E2 in H. simpl in H.
    destruct (H Ht) as [Hin Hrest]. split; [apply Hsub, Hin|exact Hrest].
Qed.

Lemma getNextTasks_loop_returned (fuel : nat) (now : Z) :
  forall s u, In u (fst (getNextTasks_loop fuel now s)) ->
  In (task_id u) (map task_id (queue s)).
Proof.
  induction fuel as [|fuel IH]; intros s u Hu; simpl in Hu; [contradiction|].
  destruct (queue s) eqn:Hq; [contradiction|].
  pose proof (getNextTask_returned now s) as Hret.
  pose proof (getNextTask_queue_sub now s (task_id u)) as Hsub.
  rewrite Hq in Hret, Hsub.
  destruct (getNextTask now s) as [ot s1] eqn:E1; simpl in Hret, Hsub.
  specialize (IH s1 u).
  destruct (getNextTasks_loop fuel now s1) as [ts s2] eqn:E2; simpl in Hu, IH.
  destruct ot as [v|]; [destruct Hu as [<-|Hu]|].
  - apply Hret. reflexivity.
  - apply Hsub, IH, Hu.
  - apply Hsub, IH, Hu.
Qed.

Lemma running_only_by_dequeue (op : QueueOp) (s : TaskQueue) (k : nat) (t : Task) :
  queue_inv s -> runningTasks s !! k = None ->
  runningTasks (exec op s) !! k = Some t ->
  In k (map task_id (queue s)) /\ status t = running /\
  ((exists now, op = OpGetNextTask now /\ startedAt t = Some now) \/
   (exists count now, op = OpGetNextTasks count now /\ startedAt t = Some now)).
Proof.
  intros Hs Hk Ht. destruct op as [nt now|now|count now|j r now|j err now]; simpl in Ht.
  - simpl in Ht. congruence.
  - destruct (getNextTask_running_new now s k t Hk Ht) as [H1 [H2 H3]].
    split; [exact H1|split; [exact H2|left; exists now; split; [reflexivity|exact H3]]].
  - destruct (getNextTasks_loop_running_new (Z.to_nat count) now k t s Hs Hk Ht)
      as [H1 [H2 H3]].
    split; [exact H1|split; [exact H2|right; exists count, now; split; [reflexivity|exact H3]]].
  - unfold completeTask in Ht. destruct (runningTasks s !! j); simpl in Ht; [|congruence].
    apply lookup_delete_Some in Ht as [_ Ht]. congruence.
  - unfold failTask in Ht. destruct (runningTasks s !! j); simpl in Ht; [|congruence].
    destruct (Z.ltb _ _); simpl in Ht;
      apply lookup_delete_Some in Ht as [_ Ht]; congruence.
Qed.

(** C9. In every state reachable from the empty queue by [addTask],
    [getNextTask], [getNextTasks], [completeTask] and [failTask], no id
    occurs twice in the pending queue and no pending task is in the running
    map; and the only steps that put a task id into the running map are
    the dequeues [getNextTask] / [getNextTasks], which take it from the
    pending queue, mark it running and stamp [startedAt]. *)
Theorem queue_no_double_assignment (ops : list QueueOp) :
  let s := run emptyTaskQueue ops in
  NoDup (map task_id (queue s)) /\
  (forall t, In t (queue s) -> runningTasks s !! task_id t = None) /\
  (forall op k t, runningTasks s !! k = None -> runningTasks (exec op s) !! k = Some t ->
     In k (map task_id (queue s)) /\ status t = running /\
     ((exists now, op = OpGetNextTask now /\ startedAt t = Some now) \/
      (exists count now, op = OpGetNextTasks count now /\ startedAt t = Some now))).
Proof.
  intros s. pose proof (run_inv ops emptyTaskQueue emptyTaskQueue_inv) as Hs.
  fold s in Hs. destruct Hs as [Hnd [Hpr Hrest]].
  split; [exact Hnd|split; [exact Hpr|]].
  intros op k t Hk Ht. apply (running_only_by_dequeue op s k t); try assumption.
  split; [exact Hnd|split; [exact Hpr|exact Hrest]].
Qed.

Lemma gone_exec (op : QueueOp) (k : nat) (s : TaskQueue) :
  queue_inv s -> gone k s -> gone k (exec op s).
Proof.
  intros Hs Hg. pose proof Hs as [Hnd [Hpr [Hkey [Hbq Hbr]]]].
  destruct Hg as [Hq [Hr Hb]].
  destruct op as [nt now|now|count now|j r now|j err now]; unfold gone; simpl.
  - split; [|split; [exact Hr|lia]].
    intros Hin. eapply Permutation_in in Hin; [|apply ids_sort_snoc].
    simpl in Hin. destruct Hin as [Hin|Hin]; [lia|contradiction].
  - split; [intros Hin; apply Hq, (getNextTask_queue_sub now s k Hin)|].
    split; [|unfold getNextTask; destruct (queue s); exact Hb].
    destruct (runningTasks (snd (getNextTask now s)) !! k) as [t|] eqn:E; [|reflexivity].
    destruct (getNextTask_running_new now s k t Hr E) as [Hin _]. contradiction.
  - assert (Hg' : forall fuel s', queue_inv s' -> gone k s' ->
                  gone k (snd (getNextTasks_loop fuel now s'))).
    { induction fuel as [|fuel IH]; intros s' Hs' [Hq' [Hr' Hb']]; simpl;
        [repeat split; assumption|].
      destruct (queue s') eqn:Hqs;
        [simpl; unfold gone; rewrite ?Hqs in *; repeat split; assumption|].
      rewrite <- Hqs in Hq'.
      pose proof (getNextTask_inv now s' Hs') as Hs1.
      assert (Hg1 : gone k (snd (getNextTask now s'))).
      { split; [intros Hin; apply Hq', (getNextTask_queue_sub now s' k Hin)|].
        split; [|unfold getNextTask; rewrite Hqs; exact Hb'].
        destruct (runningTasks (snd (getNextTask now s')) !! k) as [u|] eqn:E;
          [|reflexivity].
        destruct (getNextTask_running_new now s' k u Hr' E) as [Hin _]. contradiction. }
      destruct (getNextTask now s') as [ot s1]; simpl in Hs1, Hg1.
      specialize (IH s1 Hs1 Hg1).
      destruct (getNextTasks_loop fuel now s1); exact IH. }
    apply (Hg' (Z.to_nat count) s Hs). repeat split; assumption.
  - unfold completeTask. destruct (runningTasks s !! j) as [t|] eqn:Ej;
      simpl; [|repeat split; assumption].
    split; [exact Hq|split; [|exact Hb]].
    apply lookup_delete_None. right. exact Hr.
  - unfold failTask. destruct (runningTasks s !! j) as [t|] eqn:Ej;
      simpl; [|repeat split; assumption].
    assert (Hjk : j <> k) by (intros ->; congruence).
    pose proof (Hkey j t Ej) as Hid.
    destruct (Z.ltb _ _); simpl.
    + split; [|split; [apply lookup_delete_None; right; exact Hr|exact Hb]].
      intros Hin. eapply Permutation_in in Hin; [|apply ids_sort_snoc].
      simpl in Hin. destruct Hin as [Hin|Hin]; [congruence|contradiction].
    + split; [exact Hq|split; [|exact Hb]].
      apply lookup_delete_None. right. exact Hr.
Qed.

Lemma gone_run (k : nat) (ops : list QueueOp) :
  forall s, queue_inv s -> gone k s -> gone k (run s ops).
Proof.
  induction ops as [|op ops IH]; intros s Hs Hg; simpl; [exact Hg|].
  apply IH; [apply exec_inv, Hs|apply gone_exec; assumption].
Qed.

(** C2 (counterexample). A running task with [retryCount = 0] and
    [maxRetries = 1] has [retryCount < maxRetries] when [failTask] is
    called, yet it is not requeued: [failTask] increments [retryCount]
    first and compares the incremented value, so the task is marked failed
    and the pending queue stays empty. *)
Lemma failTask_compares_incremented_counterexample :
  let s := run emptyTaskQueue one_running_ops in
  (exists t, runningTasks s !! 0%nat = Some t /\ (retryCount t < maxRetries t)%Z) /\
  queue (fst (failTask 0 "timeout" 2 s)) = [] /\
  option_map status (snd (failTask 0 "timeout" 2 s)) = Some failed.
Proof.
  split; [|split; vm_compute; reflexivity].
  eexists. split; [vm_compute; reflexivity|]. vm_compute. reflexivity.
Qed.

(** C2 (amended). For a running task [t] of a reachable queue, [failTask]
    first increments [retryCount]; if the incremented count is still below
    [maxRetries] the task is reset to pending (retryCount + 1, startedAt
    cleared, error recorded), leaves the running map and is re-inserted in
    the pending queue; otherwise it becomes failed (retryCount + 1, error
    recorded), the failure with its error is stored in the completed-results
    map, and the task is never pending, running or dequeued again. So a task
    that fails for the [maxRetries]-th time is failed, and one failed fewer
    times is requeued. *)
Theorem failTask_retry_or_fail (ops : list QueueOp) (k : nat) (err : string)
    (now : Z) (t : Task) :
  let s := run emptyTaskQueue ops in
  runningTasks s !! k = Some t ->
  let s' := fst (failTask k err now s) in
  let r := snd (failTask k err now s) in
  ((retryCount t + 1 < maxRetries t)%Z ->
     exists t', r = Some t' /\ task_id t' = k /\ status t' = pending /\
       retryCount t' = (retryCount t + 1)%Z /\ startedAt t' = None /\
       task_error t' = Some err /\ In t' (queue s') /\ runningTasks s' !! k = None) /\
  (~ (retryCount t + 1 < maxRetries t)%Z ->
     exists t', r = Some t' /\ task_id t' = k /\ status t' = failed /\
       retryCount t' = (retryCount t + 1)%Z /\ task_error t' = Some err /\
       (exists d, completedTasks s' !! k = Some (mkTaskResult k false None (Some err) d)) /\
       forall ops', let s'' := run s' ops' in
         ~ In k (map task_id (queue s'')) /\ runningTasks s'' !! k = None /\
         (forall now' u, fst (getNextTask now' s'') = Some u -> task_id u <> k) /\
         (forall count now' u, In u (fst (getNextTasks count now' s'')) -> task_id u <> k)).
Proof.
  intros s Ht s' r.
  pose proof (run_inv ops emptyTaskQueue emptyTaskQueue_inv) as Hs. fold s in Hs.
  pose proof (failTask_inv k err now s Hs) as Hs'. fold s' in Hs'.
  pose proof Hs as [Hnd [Hpr [Hkey [Hbq Hbr]]]].
  pose proof (Hkey k t Ht) as Hid.
  subst s' r. unfold failTask. rewrite Ht.
  destruct (Z.ltb_spec (retryCount t + 1) (maxRetries t)) as [Hlt|Hge]; simpl.
  - split; [intros _|intros Hn; contradiction].
    exists (set_requeued (retryCount t + 1) err t).
    repeat split; try exact Hid.
    + apply In_sortByPriority, in_or_app. right. left. reflexivity.
    + apply lookup_delete_eq.
  - split; [intros Hn; lia|intros _].
    exists (set_failed (retryCount t + 1) now err t).
    split; [reflexivity|]. split; [exact Hid|].
    do 3 (split; [reflexivity|]).
    split; [eexists; apply lookup_insert_eq|].
    try intros ops'.
    match goal with |- context [run ?x ?o] => set (s'' := run x o) end.
      assert (Hg : gone k s'').
      { apply gone_run.
        - unfold failTask in Hs'. rewrite Ht in Hs'.
          destruct (Z.ltb_spec (retryCount t + 1) (maxRetries t)); [lia|exact Hs'].
        - unfold gone; simpl. split; [|split; [apply lookup_delete_eq|eapply Hbr, Ht]].
          intros Hin. apply in_map_iff in Hin as [u [Hu Hin]].
          apply Hpr in Hin. rewrite Hu in Hin. congruence. }
      destruct Hg as [Hq [Hr _]].
      split; [exact Hq|split; [exact Hr|split]].
      * intros now' u Hu Heq. apply Hq. rewrite <- Heq.
        apply (getNextTask_returned now' s'' u Hu).
      * intros count now' u Hu Heq. apply Hq. rewrite <- Heq.
        apply (getNextTasks_loop_returned _ now' s'' u Hu).
Qed.

(** ** C10: unknown ids *)

(** C10. [completeTask] and [failTask] with an id that is not in the
    running map leave the whole queue state (pending queue, running map,
    completed results, duration statistics, uuid supply) unchanged and
    raise no error. *)
Theorem complete_fail_not_running_noop (s : TaskQueue) (k : nat)
    (r : ResultInput) (err : string) (now : Z) :
  runningTasks s !! k = None ->
  completeTask k r now s = (s, None) /\ failTask k err now s = (s, None).
Proof.
  intros Hk. unfold completeTask, failTask. rewrite Hk. split; reflexivity.
Qed.

(* ------------------------------------------------------------------ *)
(** ** Witnesses: the theorems applied at concrete inputs *)

(** C1 witness: the media sale of the counterexample returns a breakdown
    whose total is its itemised sum plus the closing fee 0.99. *)
Lemma calculateFees_total_sum_witness :
  exists fb, calculateFees media_params = inr fb /\
    total fb == itemised_sum fb + (99 # 100).
Proof.
  destruct (calculateFees media_params) as [e|fb] eqn:E; [vm_compute in E; discriminate|].
  exists fb. split; [reflexivity|].
  exact (calculateFees_total_sum media_params fb E).
Defined.

(** C3 witness: margin 60 %, roi 200 % satisfies the high band. *)
Lemma classify_first_band_witness :
  band_satisfied (sample_tiers high) (margin (metrics sample_deal)) (roi (metrics sample_deal)) /\
  result_tier (classify sample_tiers sample_deal) = high /\
  qualifies (classify sample_tiers sample_deal) = true.
Proof.
  assert (Hb : band_satisfied (sample_tiers high) (margin (metrics sample_deal))
                 (roi (metrics sample_deal))).
  { unfold band_satisfied; simpl.
    split; [apply Qle_bool_iff; vm_compute; reflexivity|].
    split; [exact I|].
    split; [apply Qle_bool_iff; vm_compute; reflexivity|exact I]. }
  split; [exact Hb|].
  exact (proj1 (classify_first_band sample_tiers sample_deal) Hb).
Defined.

(** C4 witness: sale price 100, cost 50, fees 37. *)
Lemma calculateMetrics_spec_witness :
  0 < 100 /\ margin (calculateMetrics 100 50 37) = profit (calculateMetrics 100 50 37) / 100 * 100.
Proof.
  destruct (calculateMetrics_spec 100 50 37) as (_ & _ & _ & _ & Hm & _).
  assert (Hpos : 0 < 100) by (unfold Qlt; simpl; lia).
  split; [exact Hpos|exact (Hm Hpos)].
Defined.

(** C5 witness: 100 then 90 for one key gives an alert of -10. *)
Lemma addPriceEntry_alert_spec_witness :
  exists a, snd (addPriceEntry (addPriceEntries emptyPriceHistoryManager [entry_at 100 0])
                   (entry_at 90 1)) = Some a /\ changeAmount a == -10.
Proof.
  destruct (snd (addPriceEntry (addPriceEntries emptyPriceHistoryManager [entry_at 100 0])
                   (entry_at 90 1))) as [a|] eqn:E.
  - exists a. split; [reflexivity|].
    destruct (proj2 (addPriceEntry_alert_spec [entry_at 100 0] (entry_at 90 1)) a E)
      as (p0 & Hl & _ & _ & _ & Hc & _).
    rewrite Hc. vm_compute in Hl. injection Hl as <-. vm_compute. reflexivity.
  - exfalso. vm_compute in E. discriminate.
Defined.

(** C6 witness: lowering the minimum margin keeps the sample deal. *)
Lemma filter_weaken_superset_witness :
  weakens sample_filter (with_minMargin sample_filter 0) /\
  In sample_deal (filter [sample_deal] (with_minMargin sample_filter 0)).
Proof.
  assert (Hw : weakens sample_filter (with_minMargin sample_filter 0)).
  { apply W_minMargin. simpl. unfold Qle; simpl; lia. }
  split; [exact Hw|].
  apply (filter_weaken_superset [sample_deal] sample_filter _ Hw).
  assert (Hf : filter [sample_deal] sample_filter = [sample_deal])
    by (vm_compute; reflexivity).
  rewrite Hf. left. reflexivity.
Defined.


(** C9 witness: dequeuing the only pending task puts it in the running map. *)
Lemma queue_no_double_assignment_witness :
  let s := run emptyTaskQueue [OpAddTask one_retry_task 0] in
  In 0%nat (map task_id (queue s)) /\
  exists t, runningTasks (exec (OpGetNextTask 1) s) !! 0%nat = Some t /\ status t = running.
Proof.
  intros s.
  destruct (runningTasks (exec (OpGetNextTask 1) s) !! 0%nat) as [t|] eqn:E;
    [|vm_compute in E; discriminate].
  assert (Hk : runningTasks s !! 0%nat = None) by (vm_compute; reflexivity).
  destruct (proj2 (proj2 (queue_no_double_assignment [OpAddTask one_retry_task 0]))
              (OpGetNextTask 1) 0%nat t Hk E) as (Hin & Hst & _).
  split; [exact Hin|exists t; split; [reflexivity|exact Hst]].
Defined.

(** C2 witness: the first failure of a task with [maxRetries = 1] is final. *)
Lemma failTask_retry_or_fail_witness :
  exists t', snd (failTask 0 "timeout" 2 (run emptyTaskQueue one_running_ops)) = Some t' /\
             status t' = failed.
Proof.
  destruct (runningTasks (run emptyTaskQueue one_running_ops) !! 0%nat) as [t|] eqn:E;
    [|vm_compute in E; discriminate].
  pose proof E as E'. vm_compute in E'. injection E' as Ht.
  destruct (proj2 (failTask_retry_or_fail one_running_ops 0 "timeout" 2 t E))
    as (t' & Hr & _ & Hst & _).
  - rewrite <- Ht. simpl. lia.
  - exists t'. split; [exact Hr|exact Hst].
Defined.

(** C10 witness: completing a task that is still pending changes nothing. *)
Lemma complete_fail_not_running_noop_witness :
  let s := run emptyTaskQueue [OpAddTask one_retry_task 0] in
  runningTasks s !! 0%nat = None /\
  completeTask 0 (mkResultInput true None None 0) 5 s = (s, None).
Proof.
  intros s.
  assert (Hk : runningTasks s !! 0%nat = None) by (vm_compute; reflexivity).
  split; [exact Hk|].
  exact (proj1 (complete_fail_not_running_noop s 0 (mkResultInput true None None 0)
                  "timeout" 5 Hk)).
Defined.

(* ================================================================== *)
(** * Further properties of the code *)

(** ** Extras: the price history *)

Lemma Qltb_true_iff (a b : Q) : Qltb a b = true <-> a < b.
Proof. apply (Qgtb_true_iff b a). Qed.

Lemma history_run (es : list PriceHistoryEntry) (a : string) (m : MarketplaceCode) :
  getPriceHistory (addPriceEntries emptyPriceHistoryManager es) a m None =
    lastn MAX_HISTORY (entries_for es a m).
Proof.
  pose proof (history_addPriceEntries a m es emptyPriceHistoryManager [] eq_refl) as H.
  simpl in H. unfold getPriceHistory.
  destruct (history (addPriceEntries emptyPriceHistoryManager es) !! getKey a m).
  - exact H.
  - rewrite H. reflexivity.
Qed.

Lemma lastn_lastn {A} (k j : nat) (l : list A) :
  lastn k (lastn j l) = lastn (Nat.min k j) l.
Proof. unfold lastn. rewrite skipn_skipn, length_skipn. f_equal. lia. Qed.

(** X1. After any sequence of [addPriceEntry] calls, [getPriceHistory]
    with a positive [limit] n returns the last min(n, 1000) entries recorded
    for the key, oldest first. *)
Theorem getPriceHistory_positive_limit (es : list PriceHistoryEntry) (a : string)
    (m : MarketplaceCode) (n : Z) (Hn : (0 < n)%Z) :
  getPriceHistory (addPriceEntries emptyPriceHistoryManager es) a m (Some n) =
    lastn (Nat.min (Z.to_nat n) MAX_HISTORY) (entries_for es a m).
Proof.
  rewrite <- lastn_lastn, <- history_run.
  unfold getPriceHistory.
  set (h := match history _ !! getKey a m with Some h => h | None => [] end).
  destruct (Z.eqb_spec n 0) as [E|_]; [lia|].
  unfold slice_from. destruct (Z.ltb_spec (- n) 0) as [_|E]; [|lia].
  unfold lastn. f_equal. lia.
Qed.

(** X2. A [limit] of 0 or below does not select the newest entries: 0 (a
    falsy limit) returns the whole series, and a negative limit -k drops the
    k oldest entries. *)
Theorem getPriceHistory_nonpositive_limit (st : PriceHistoryManager) (a : string)
    (m : MarketplaceCode) (n : Z) (Hn : (n <= 0)%Z) :
  getPriceHistory st a m (Some n) = skipn (Z.to_nat (- n)) (getPriceHistory st a m None).
Proof.
  unfold getPriceHistory. destruct (Z.eqb_spec n 0) as [->|Hne]; [reflexivity|].
  unfold slice_from. destruct (Z.ltb_spec (- n) 0); [lia|]. reflexivity.
Qed.

(** X3. After any sequence of [addPriceEntry] calls, [getLastPrice]
    returns the price of the last entry recorded for the key, and [null]
    for a key that never received one. *)
Theorem getLastPrice_run (es : list PriceHistoryEntry) (a : string) (m : MarketplaceCode) :
  getLastPrice (addPriceEntries emptyPriceHistoryManager es) a m = last_price_for es a m.
Proof. apply lastPrices_run. Qed.

Lemma getPriceHistory_nil (st : PriceHistoryManager) (a : string) (m : MarketplaceCode)
    (lim : option Z) :
  history st !! getKey a m = None -> getPriceHistory st a m lim = [].
Proof.
  unfold getPriceHistory. intros ->.
  destruct lim as [n|]; [|reflexivity].
  destruct (Z.eqb n 0); [reflexivity|].
  unfold slice_from. destruct (Z.ltb (- n) 0); apply skipn_nil.
Qed.

Lemma getKey_eqb (a a' : string) (m m' : MarketplaceCode) :
  (String.eqb a' a && (if MarketplaceCode_eq_dec m' m then true else false)) = true <->
  getKey a' m' = getKey a m.
Proof.
  rewrite andb_true_iff, String.eqb_eq.
  destruct (MarketplaceCode_eq_dec m' m) as [->|Hm].
  - split; [intros [-> _]; reflexivity|]. intros H. apply getKey_inj in H as [-> _].
    split; reflexivity.
  - split; [intros [_ H]; discriminate|]. intros H. apply getKey_inj in H as [_ H].
    contradiction.
Qed.

(** X4. [clearHistory(asin, marketplace)] forgets that key and nothing
    else: its series becomes empty (whatever the limit) and its last price
    [null], so the next entry for it raises no alert; every other key keeps
    its series and last price. *)
Theorem clearHistory_spec (st : PriceHistoryManager) (a : string) (m : MarketplaceCode)
    (a' : string) (m' : MarketplaceCode) (lim : option Z) (p : Q) (ts : Z) :
  let st' := clearHistory st a m in
  let same := String.eqb a' a && (if MarketplaceCode_eq_dec m' m then true else false) in
  getPriceHistory st' a' m' lim = (if same then [] else getPriceHistory st a' m' lim) /\
  getLastPrice st' a' m' = (if same then None else getLastPrice st a' m') /\
  snd (addPriceEntry st' (mkPriceHistoryEntry a m p ts)) = None.
Proof.
  intros st' same. subst st' same.
  split; [|split].
  - destruct (String.eqb a' a && _) eqn:E.
    + apply getKey_eqb in E. apply getPriceHistory_nil. simpl. rewrite E.
      apply lookup_delete_eq.
    + unfold getPriceHistory. simpl. rewrite lookup_delete_ne; [reflexivity|].
      intros H. symmetry in H. apply (proj2 (getKey_eqb a a' m m')) in H. congruence.
  - unfold getLastPrice. simpl. destruct (String.eqb a' a && _) eqn:E.
    + apply getKey_eqb in E. rewrite E. apply lookup_delete_eq.
    + rewrite lookup_delete_ne; [reflexivity|].
      intros H. symmetry in H. apply (proj2 (getKey_eqb a a' m m')) in H. congruence.
  - unfold addPriceEntry. simpl. rewrite lookup_delete_eq. reflexivity.
Qed.

(** X5. [getTrackedProductsCount] grows by one exactly when
    [addPriceEntry] meets a new key and is unchanged otherwise;
    [clearHistory] lowers it by one exactly when the key was tracked; after
    [clearAllHistory] it is 0. *)
Theorem getTrackedProductsCount_spec (st : PriceHistoryManager) (e : PriceHistoryEntry)
    (a : string) (m : MarketplaceCode) :
  getTrackedProductsCount (fst (addPriceEntry st e)) =
    (getTrackedProductsCount st +
     match history st !! getKey (entry_asin e) (entry_marketplace e) with
     | Some _ => 0 | None => 1 end)%nat /\
  (getTrackedProductsCount (clearHistory st a m) +
   match history st !! getKey a m with Some _ => 1 | None => 0 end)%nat =
    getTrackedProductsCount st /\
  getTrackedProductsCount (clearAllHistory st) = 0%nat.
Proof.
  unfold getTrackedProductsCount, addPriceEntry, clearHistory, clearAllHistory; simpl.
  split; [|split].
  - rewrite map_size_insert.
    destruct (history st !! _); simpl; lia.
  - rewrite map_size_delete. destruct (history st !! getKey a m) eqn:E; simpl; [|lia].
    assert (size (history st) <> 0%nat) by (eapply map_size_ne_0_lookup_2; rewrite E; eauto).
    lia.
  - apply map_size_empty.
Qed.

Lemma fold_min_spec (r : list PriceHistoryEntry) (x0 : Q) :
  let mn := fold_left (fun mn e => if Qltb (entry_price e) mn then entry_price e else mn)
              r x0 in
  mn <= x0 /\ (forall e, In e r -> mn <= entry_price e) /\
  (mn = x0 \/ In mn (map entry_price r)).
Proof.
  revert x0. induction r as [|e r IH]; intros x0; simpl.
  - split; [apply Qle_refl|]. split; [intros _ []|left; reflexivity].
  - destruct (Qltb (entry_price e) x0) eqn:E.
    + apply Qltb_true_iff in E.
      destruct (IH (entry_price e)) as [H1 [H2 H3]].
      split; [apply Qlt_le_weak; eapply Qle_lt_trans; eassumption|].
      split; [intros e' [<-|He']; [exact H1|apply H2, He']|].
      right. destruct H3 as [->|H3]; [left; reflexivity|right; exact H3].
    + apply Qltb_false_iff in E.
      destruct (IH x0) as [H1 [H2 H3]].
      split; [exact H1|].
      split; [intros e' [<-|He']; [eapply Qle_trans; eassumption|apply H2, He']|].
      destruct H3 as [->|H3]; [left; reflexivity|right; right; exact H3].
Qed.

Lemma fold_max_spec (r : list PriceHistoryEntry) (x0 : Q) :
  let mx := fold_left (fun mx e => if Qgtb (entry_price e) mx then entry_price e else mx)
              r x0 in
  x0 <= mx /\ (forall e, In e r -> entry_price e <= mx) /\
  (mx = x0 \/ In mx (map entry_price r)).
Proof.
  revert x0. induction r as [|e r IH]; intros x0; simpl.
  - split; [apply Qle_refl|]. split; [intros _ []|left; reflexivity].
  - destruct (Qgtb (entry_price e) x0) eqn:E.
    + apply Qgtb_true_iff in E.
      destruct (IH (entry_price e)) as [H1 [H2 H3]].
      split; [apply Qlt_le_weak; eapply Qlt_le_trans; eassumption|].
      split; [intros e' [<-|He']; [exact H1|apply H2, He']|].
      right. destruct H3 as [->|H3]; [left; reflexivity|right; exact H3].
    + apply Qgtb_false_iff in E.
      destruct (IH x0) as [H1 [H2 H3]].
      split; [exact H1|].
      split; [intros e' [<-|He']; [eapply Qle_trans; eassumption|apply H2, He']|].
      destruct H3 as [->|H3]; [left; reflexivity|right; right; exact H3].
Qed.

Lemma fold_sum_lower (r : list PriceHistoryEntry) (lo acc : Q) :
  (forall e, In e r -> lo <= entry_price e) ->
  acc + lo * inject_Z (Z.of_nat (List.length r)) <=
    fold_left (fun acc e => acc + entry_price e) r acc.
Proof.
  revert acc. induction r as [|e r IH]; intros acc Hr; simpl.
  - rewrite Qmult_0_r, Qplus_0_r. apply Qle_refl.
  - eapply Qle_trans; [|apply IH; intros e' He'; apply Hr; right; exact He'].
    specialize (Hr e (or_introl eq_refl)).
    rewrite Nat2Z.inj_succ, <- Z.add_1_r, inject_Z_plus.
    set (n := inject_Z (Z.of_nat (List.length r))).
    change (inject_Z 1) with 1. lra.
Qed.

Lemma fold_sum_upper (r : list PriceHistoryEntry) (hi acc : Q) :
  (forall e, In e r -> entry_price e <= hi) ->
  fold_left (fun acc e => acc + entry_price e) r acc <=
    acc + hi * inject_Z (Z.of_nat (List.length r)).
Proof.
  revert acc. induction r as [|e r IH]; intros acc Hr; simpl.
  - rewrite Qmult_0_r, Qplus_0_r. apply Qle_refl.
  - eapply Qle_trans; [apply IH; intros e' He'; apply Hr; right; exact He'|].
    specialize (Hr e (or_introl eq_refl)).
    rewrite Nat2Z.inj_succ, <- Z.add_1_r, inject_Z_plus.
    set (n := inject_Z (Z.of_nat (List.length r))).
    change (inject_Z 1) with 1. lra.
Qed.

(** X6. The three windowed statistics agree on emptiness and are ordered:
    for any key and cutoff date, [getLowestPrice], [getAveragePrice] and
    [getHighestPrice] are all [null] or all numbers, with
    lowest <= average <= highest. *)
Theorem window_stats_ordered (st : PriceHistoryManager) (a : string)
    (m : MarketplaceCode) (cutoff : Z) :
  match getLowestPrice st a m cutoff, getAveragePrice st a m cutoff,
        getHighestPrice st a m cutoff with
  | Some lo, Some av, Some hi => lo <= av /\ av <= hi
  | None, None, None => True
  | _, _, _ => False
  end.
Proof.
  unfold getLowestPrice, getAveragePrice, getHighestPrice.
  destruct (history st !! getKey a m) as [[|e h]|]; [exact I| |exact I].
  destruct (recentEntries (e :: h) cutoff) as [|e0 r]; [exact I|].
  destruct (fold_min_spec (e0 :: r) (entry_price e0)) as [_ [Hmin _]].
  destruct (fold_max_spec (e0 :: r) (entry_price e0)) as [_ [Hmax _]].
  assert (Hn : 0 < inject_Z (Z.of_nat (List.length (e0 :: r)))).
  { unfold Qlt. simpl. lia. }
  split.
  - apply Qle_shift_div_l; [exact Hn|].
    pose proof (fold_sum_lower (e0 :: r) _ 0 Hmin) as H. rewrite Qplus_0_l in H.
    exact H.
  - apply Qle_shift_div_r; [exact Hn|].
    pose proof (fold_sum_upper (e0 :: r) _ 0 Hmax) as H. rewrite Qplus_0_l in H.
    exact H.
Qed.

(** X7. [getLowestPrice] / [getHighestPrice] return [null] exactly when
    no entry of the key's series is at or after the cutoff date; otherwise
    they return one of the prices in that window, no greater (resp. no
    smaller) than any price in it. *)
Theorem window_min_max (st : PriceHistoryManager) (a : string) (m : MarketplaceCode)
    (cutoff : Z) :
  let w := recentEntries (getPriceHistory st a m None) cutoff in
  match getLowestPrice st a m cutoff with
  | None => w = []
  | Some lo => In lo (map entry_price w) /\ (forall e, In e w -> lo <= entry_price e)
  end /\
  match getHighestPrice st a m cutoff with
  | None => w = []
  | Some hi => In hi (map entry_price w) /\ (forall e, In e w -> entry_price e <= hi)
  end.
Proof.
  intros w. subst w.
  unfold getLowestPrice, getHighestPrice, getPriceHistory.
  destruct (history st !! getKey a m) as [[|e h]|]; [split; reflexivity| |split; reflexivity].
  destruct (recentEntries (e :: h) cutoff) as [|e0 r]; [split; reflexivity|].
  destruct (fold_min_spec (e0 :: r) (entry_price e0)) as [_ [H1 H2]].
  destruct (fold_max_spec (e0 :: r) (entry_price e0)) as [_ [H3 H4]].
  split; split; try assumption.
  - destruct H2 as [->|H2]; [left; reflexivity|exact H2].
  - destruct H4 as [->|H4]; [left; reflexivity|exact H4].
Qed.

(** ** Extras: the task queue *)

Ltac qsimpl := cbn [queue runningTasks completedTasks taskDurations next_uuid] in *.

Lemma full_inv_empty : full_inv emptyTaskQueue.
Proof.
  split; [apply emptyTaskQueue_inv|]. split; [|reflexivity].
  intros k r H. simpl in H. rewrite lookup_empty in H. discriminate.
Qed.

Lemma in_ids_running (s : TaskQueue) (k : nat) (t : Task) :
  queue_inv s -> runningTasks s !! k = Some t -> ~ In k (map task_id (queue s)).
Proof.
  intros [_ [Hpr _]] Hk Hin. apply in_map_iff in Hin as [u [Hu Hin]].
  apply Hpr in Hin. rewrite Hu in Hin. congruence.
Qed.

Lemma addTask_full_inv (nt : NewTask) (now : Z) (s : TaskQueue) :
  full_inv s -> full_inv (snd (addTask nt now s)).
Proof.
  intros [Hq [Hr Hc]]. split; [apply addTask_inv, Hq|]. split.
  - intros k r Hk. qsimpl. destruct (Hr k r Hk) as [H1 [H2 H3]].
    simpl. split; [lia|]. split; [|exact H3].
    rewrite ids_sort_snoc. intros [Heq|Hin]; [simpl in Heq; lia|contradiction].
  - unfold count_inv in *. simpl.
    rewrite (Permutation_length (sortByPriority_perm _)), length_app. simpl. lia.
Qed.

Lemma getNextTask_full_inv (now : Z) (s : TaskQueue) :
  full_inv s -> full_inv (snd (getNextTask now s)).
Proof.
  intros [Hq [Hr Hc]]. split; [apply getNextTask_inv, Hq|].
  pose proof Hq as [Hnd [Hpr _]].
  unfold getNextTask. destruct (queue s) as [|t q] eqn:Eq; [split; assumption|].
  simpl. split.
  - intros k r Hk. qsimpl. destruct (Hr k r Hk) as [H1 [H2 H3]].
    rewrite Eq in H2. simpl in H2. split; [exact H1|]. split; [tauto|].
    rewrite lookup_insert_ne; [exact H3|]. simpl. intros Heq. subst k. tauto.
  - unfold count_inv in *. simpl. rewrite Eq in Hc. simpl in Hc.
    rewrite map_size_insert_None; [lia|].
    apply Hpr. left. reflexivity.
Qed.

Lemma getNextTasks_loop_full_inv (fuel : nat) (now : Z) :
  forall s, full_inv s -> full_inv (snd (getNextTasks_loop fuel now s)).
Proof.
  induction fuel as [|fuel IH]; intros s Hs; simpl; [exact Hs|].
  destruct (queue s); [exact Hs|].
  destruct (getNextTask now s) as [ot s1] eqn:E1.
  pose proof (getNextTask_full_inv now s Hs) as H1. rewrite E1 in H1.
  specialize (IH s1 H1). destruct (getNextTasks_loop fuel now s1). exact IH.
Qed.

Lemma size_pos_lookup {A} (mp : gmap nat A) (k : nat) (x : A) :
  mp !! k = Some x -> (1 <= size mp)%nat.
Proof.
  intros Hk. assert (size mp <> 0%nat) by (eapply map_size_ne_0_lookup_2; rewrite Hk; eauto).
  lia.
Qed.

Lemma completeTask_full_inv (k : nat) (r : ResultInput) (now : Z) (s : TaskQueue) :
  full_inv s -> full_inv (fst (completeTask k r now s)).
Proof.
  intros [Hq [Hr Hc]]. split; [apply completeTask_inv, Hq|].
  unfold completeTask. destruct (runningTasks s !! k) as [t|] eqn:Ek; [|split; assumption].
  pose proof Hq as [_ [_ [_ [_ Hbr]]]].
  assert (Hck : completedTasks s !! k = None).
  { destruct (completedTasks s !! k) as [x|] eqn:E; [|reflexivity].
    destruct (Hr k x E) as [_ [_ H]]. congruence. }
  simpl. split.
  - intros j x Hj. qsimpl. destruct (decide (k = j)) as [<-|Hne].
    + split; [eapply Hbr, Ek|]. split; [eapply in_ids_running; eassumption|].
      apply lookup_delete_eq.
    + rewrite lookup_insert_ne in Hj by exact Hne.
      destruct (Hr j x Hj) as [H1 [H2 H3]]. split; [exact H1|]. split; [exact H2|].
      rewrite lookup_delete_ne by exact Hne. exact H3.
  - unfold count_inv in *. simpl.
    rewrite map_size_insert_None by exact Hck.
    rewrite map_size_delete_Some by (rewrite Ek; eauto).
    pose proof (size_pos_lookup _ _ _ Ek). lia.
Qed.

Lemma failTask_full_inv (k : nat) (err : string) (now : Z) (s : TaskQueue) :
  full_inv s -> full_inv (fst (failTask k err now s)).
Proof.
  intros [Hq [Hr Hc]]. split; [apply failTask_inv, Hq|].
  unfold failTask. destruct (runningTasks s !! k) as [t|] eqn:Ek; [|split; assumption].
  pose proof Hq as [_ [_ [Hkey [_ Hbr]]]].
  pose proof (Hkey k t Ek) as Hid.
  assert (Hck : completedTasks s !! k = None).
  { destruct (completedTasks s !! k) as [x|] eqn:E; [|reflexivity].
    destruct (Hr k x E) as [_ [_ H]]. congruence. }
  pose proof (size_pos_lookup _ _ _ Ek) as Hpos.
  destruct (Z.ltb (retryCount t + 1) (maxRetries t)); simpl; split.
  - intros j x Hj. qsimpl. destruct (Hr j x Hj) as [H1 [H2 H3]].
    assert (Hne : k <> j) by (intros <-; congruence).
    split; [exact H1|]. split.
    + rewrite ids_sort_snoc. simpl. intros [Heq|Hin]; [|contradiction].
      apply Hne. simpl in Heq. congruence.
    + rewrite lookup_delete_ne by exact Hne. exact H3.
  - unfold count_inv in *. simpl.
    rewrite (Permutation_length (sortByPriority_perm _)), length_app.
    rewrite map_size_delete_Some by (rewrite Ek; eauto). simpl. lia.
  - intros j x Hj. qsimpl. destruct (decide (k = j)) as [<-|Hne].
    + split; [eapply Hbr, Ek|]. split; [eapply in_ids_running; eassumption|].
      apply lookup_delete_eq.
    + rewrite lookup_insert_ne in Hj by exact Hne.
      destruct (Hr j x Hj) as [H1 [H2 H3]]. split; [exact H1|]. split; [exact H2|].
      rewrite lookup_delete_ne by exact Hne. exact H3.
  - unfold count_inv in *. simpl.
    rewrite map_size_insert_None by exact Hck.
    rewrite map_size_delete_Some by (rewrite Ek; eauto). lia.
Qed.

Lemma getNextTasks_loop_next_uuid (fuel : nat) (now : Z) :
  forall s, next_uuid (snd (getNextTasks_loop fuel now s)) = next_uuid s.
Proof.
  induction fuel as [|fuel IH]; intros s; simpl; [reflexivity|].
  destruct (queue s) as [|t q] eqn:Eq; [reflexivity|].
  unfold getNextTask at 1. rewrite Eq.
  destruct (getNextTasks_loop fuel now _) as [ts s2] eqn:E2.
  specialize (IH (mkTaskQueue q (<[task_id (set_running now t):=set_running now t]>
                                   (runningTasks s)) (completedTasks s)
                                (taskDurations s) (next_uuid s))).
  rewrite E2 in IH. exact IH.
Qed.

Lemma exec_full_inv (op : QueueOp) (s : TaskQueue) :
  full_inv s -> full_inv (exec op s).
Proof.
  destruct op; simpl.
  - apply addTask_full_inv.
  - apply getNextTask_full_inv.
  - apply getNextTasks_loop_full_inv.
  - apply completeTask_full_inv.
  - apply failTask_full_inv.
Qed.

Lemma exec_next_uuid (op : QueueOp) (s : TaskQueue) :
  next_uuid (exec op s) =
    (next_uuid s + match op with OpAddTask _ _ => 1 | _ => 0 end)%nat.
Proof.
  destruct op; simpl.
  - lia.
  - unfold getNextTask. destruct (queue s); simpl; lia.
  - unfold getNextTasks. rewrite getNextTasks_loop_next_uuid. lia.
  - unfold completeTask. destruct (runningTasks s !! id); simpl; lia.
  - unfold failTask. destruct (runningTasks s !! id); simpl; [|lia].
    destruct (Z.ltb _ _); simpl; lia.
Qed.

Lemma run_full_inv (ops : list QueueOp) :
  forall s, full_inv s ->
  full_inv (run s ops) /\ next_uuid (run s ops) = (next_uuid s + count_adds ops)%nat.
Proof.
  induction ops as [|op ops IH]; intros s Hs; simpl; [split; [exact Hs|lia]|].
  destruct (IH (exec op s) (exec_full_inv op s Hs)) as [H1 H2].
  split; [exact H1|]. rewrite H2, exec_next_uuid.
  destruct op; simpl; lia.
Qed.

Lemma reachable_inv (ops : list QueueOp) :
  full_inv (run emptyTaskQueue ops) /\ next_uuid (run emptyTaskQueue ops) = count_adds ops.
Proof. apply (run_full_inv ops emptyTaskQueue full_inv_empty). Qed.

(** A task is found by its id in a queue whose ids are distinct. *)
Lemma find_task_id (l : list Task) (t : Task) :
  NoDup (map task_id l) -> In t l ->
  List.find (fun u => Nat.eqb (task_id u) (task_id t)) l = Some t.
Proof.
  induction l as [|u l IH]; intros Hnd Hin; [destruct Hin|].
  simpl in Hnd. apply NoDup_cons in Hnd as [Hni Hnd]. simpl.
  destruct Hin as [<-|Hin]; [rewrite Nat.eqb_refl; reflexivity|].
  destruct (Nat.eqb_spec (task_id u) (task_id t)) as [Heq|_]; [|apply IH; assumption].
  exfalso. apply Hni. rewrite Heq. apply list_elem_of_In, In_task_ids, Hin.
Qed.

Lemma find_task_none (l : list Task) (k : nat) :
  ~ In k (map task_id l) -> List.find (fun u => Nat.eqb (task_id u) k) l = None.
Proof.
  induction l as [|u l IH]; intros Hni; simpl; [reflexivity|].
  destruct (Nat.eqb_spec (task_id u) k) as [Heq|_]; [exfalso; apply Hni; left; exact Heq|].
  apply IH. intros H. apply Hni. right. exact H.
Qed.

Lemma fresh_unknown (s : TaskQueue) (k : nat) :
  full_inv s -> (next_uuid s <= k)%nat -> getTask k s = None /\ getTaskResult k s = None.
Proof.
  intros [[_ [_ [_ [Hbq Hbr]]]] [Hr _]] Hk. split.
  - unfold getTask. destruct (runningTasks s !! k) eqn:E; [apply Hbr in E; lia|].
    apply find_task_none. intros Hin. apply in_map_iff in Hin as [u [<- Hu]].
    apply Hbq in Hu. lia.
  - unfold getTaskResult. destruct (completedTasks s !! k) eqn:E; [|reflexivity].
    apply Hr in E. lia.
Qed.

(** X8. On any queue reached through its operations, [addTask] returns an
    id unknown to [getTask] and [getTaskResult] before the call; after it,
    [getTask] on that id returns the new task: pending, retry count 0,
    created now, with the fields given by the caller. *)
Theorem addTask_getTask (ops : list QueueOp) (nt : NewTask) (now : Z) :
  let s := run emptyTaskQueue ops in
  let '(id, s') := addTask nt now s in
  getTask id s = None /\ getTaskResult id s = None /\
  getTask id s' =
    Some (mkTask id (new_type nt) (new_target nt) (new_marketplace nt) (new_priority nt)
            now (new_scheduledAt nt) (new_startedAt nt) (new_completedAt nt) pending 0
            (new_maxRetries nt) (new_error nt)).
Proof.
  intros s. destruct (reachable_inv ops) as [Hs _]. fold s in Hs.
  destruct (fresh_unknown s (next_uuid s) Hs (le_n _)) as [H1 H2].
  unfold addTask. split; [exact H1|]. split; [exact H2|].
  pose proof (addTask_inv nt now s (proj1 Hs)) as [Hnd _]. unfold addTask in Hnd.
  simpl in Hnd. unfold getTask. simpl.
  destruct Hs as [[_ [_ [_ [_ Hbr]]]] _].
  destruct (runningTasks s !! next_uuid s) eqn:E; [apply Hbr in E; lia|].
  match goal with |- context [Some ?t] => change (next_uuid s) with (task_id t) end.
  apply find_task_id; [exact Hnd|].
  apply In_sortByPriority, in_or_app. right. left. reflexivity.
Qed.

Lemma getNextTasks_loop_prefix (fuel : nat) (now : Z) :
  forall s, let '(ts, s') := getNextTasks_loop fuel now s in
  ts = map (set_running now) (firstn fuel (queue s)) /\ queue s' = skipn fuel (queue s).
Proof.
  induction fuel as [|fuel IH]; intros s; simpl; [split; reflexivity|].
  destruct (queue s) as [|t q] eqn:Eq; [rewrite Eq; split; reflexivity|].
  unfold getNextTask at 1. rewrite Eq.
  match goal with |- context [getNextTasks_loop fuel now ?s1] =>
    specialize (IH s1); destruct (getNextTasks_loop fuel now s1) as [ts s2] end.
  simpl in IH. destruct IH as [-> ->]. split; reflexivity.
Qed.

(** X9. [getNextTasks(count)] dequeues the first [count] pending tasks (all
    of them if fewer; none if [count <= 0]), in queue order, each marked
    running with start time now, and leaves the rest of the queue in
    order. *)
Theorem getNextTasks_prefix (count now : Z) (s : TaskQueue) :
  let '(ts, s') := getNextTasks count now s in
  ts = map (set_running now) (firstn (Z.to_nat count) (queue s)) /\
  queue s' = skipn (Z.to_nat count) (queue s).
Proof. apply getNextTasks_loop_prefix. Qed.

Lemma insertByPriority_sorted (t : Task) (l : list Task) :
  Sorted prio_ge l -> Sorted prio_ge (insertByPriority t l).
Proof.
  induction l as [|u l IH]; intros Hs; simpl; [repeat constructor|].
  destruct (Z.leb_spec (priority u) (priority t)).
  - constructor; [exact Hs|constructor; unfold prio_ge; lia].
  - inversion Hs as [|? ? Hs' Hhd]; subst.
    constructor; [apply IH, Hs'|].
    destruct l as [|v l]; simpl; [constructor; unfold prio_ge; lia|].
    destruct (Z.leb (priority v) (priority t)); constructor; unfold prio_ge; [lia|].
    inversion Hhd; assumption.
Qed.

Lemma sortByPriority_sorted (l : list Task) : Sorted prio_ge (sortByPriority l).
Proof.
  induction l as [|t l IH]; simpl; [constructor|]. apply insertByPriority_sorted, IH.
Qed.

Lemma getNextTasks_loop_sorted (fuel : nat) (now : Z) :
  forall s, Sorted prio_ge (queue s) ->
  Sorted prio_ge (queue (snd (getNextTasks_loop fuel now s))).
Proof.
  intros s Hs. pose proof (getNextTasks_loop_prefix fuel now s) as H.
  destruct (getNextTasks_loop fuel now s) as [ts s']. simpl. rewrite (proj2 H).
  clear H. revert Hs. generalize (queue s). clear s.
  induction fuel as [|fuel IH]; intros q Hs; [exact Hs|].
  destruct q as [|t q]; [constructor|]. simpl. apply IH. inversion Hs; assumption.
Qed.

Lemma exec_sorted (op : QueueOp) (s : TaskQueue) :
  Sorted prio_ge (queue s) -> Sorted prio_ge (queue (exec op s)).
Proof.
  intros Hs. destruct op; simpl.
  - apply sortByPriority_sorted.
  - unfold getNextTask. destruct (queue s) as [|t q] eqn:Eq; [simpl; rewrite Eq; constructor|].
    simpl. inversion Hs; assumption.
  - apply getNextTasks_loop_sorted, Hs.
  - unfold completeTask. destruct (runningTasks s !! id); exact Hs.
  - unfold failTask. destruct (runningTasks s !! id); [|exact Hs].
    destruct (Z.ltb _ _); simpl; [apply sortByPriority_sorted|exact Hs].
Qed.

Lemma run_sorted (ops : list QueueOp) :
  forall s, Sorted prio_ge (queue s) -> Sorted prio_ge (queue (run s ops)).
Proof.
  induction ops as [|op ops IH]; intros s Hs; simpl; [exact Hs|].
  apply IH, exec_sorted, Hs.
Qed.

Lemma prio_ge_trans : Transitive prio_ge.
Proof. unfold prio_ge. intros a b c H1 H2. lia. Qed.

(** X10. In every reachable state the pending queue is ordered by
    descending priority, so [getNextTask] hands out a task whose priority
    is at least that of every task left pending ([null] only on an empty
    queue). *)
Theorem queue_priority_order (ops : list QueueOp) (now : Z) :
  let s := run emptyTaskQueue ops in
  Sorted prio_ge (queue s) /\
  match getNextTask now s with
  | (Some t, s') => forall u, In u (queue s') -> (priority u <= priority t)%Z
  | (None, _) => queue s = []
  end.
Proof.
  intros s. assert (Hs : Sorted prio_ge (queue s)) by (apply run_sorted; constructor).
  split; [exact Hs|].
  unfold getNextTask. destruct (queue s) as [|t q] eqn:Eq; [reflexivity|].
  simpl. apply Sorted_StronglySorted in Hs; [|exact prio_ge_trans].
  inversion Hs as [|? ? _ Hall]; subst. intros u Hu.
  rewrite List.Forall_forall in Hall. apply (Hall u Hu).
Qed.

Lemma filter_all_true {A} (f : A -> bool) (l : list A) :
  (forall x, In x l -> f x = true) -> List.filter f l = l.
Proof.
  induction l as [|x l IH]; intros H; simpl; [reflexivity|].
  rewrite (H x (or_introl eq_refl)), IH; [reflexivity|]. intros y Hy. apply H. right. exact Hy.
Qed.

Lemma filter_all_false {A} (f : A -> bool) (l : list A) :
  (forall x, In x l -> f x = false) -> List.filter f l = [].
Proof.
  induction l as [|x l IH]; intros H; simpl; [reflexivity|].
  rewrite (H x (or_introl eq_refl)). apply IH. intros y Hy. apply H. right. exact Hy.
Qed.

(** Appending a task to a priority-ordered queue and sorting puts it after
    every task of equal or higher priority and before the others. *)
Lemma sortByPriority_snoc (q : list Task) (t : Task) :
  StronglySorted prio_ge q ->
  sortByPriority (q ++ [t]) =
    List.filter (fun u => Z.leb (priority t) (priority u)) q ++
    t :: List.filter (fun u => Z.ltb (priority u) (priority t)) q.
Proof.
  induction q as [|x q IH]; intros Hs; [reflexivity|].
  inversion Hs as [|? ? Hs' Hall]; subst. rewrite List.Forall_forall in Hall.
  simpl. rewrite (IH Hs').
  destruct (Z.leb_spec (priority t) (priority x)).
  - destruct (Z.ltb_spec (priority x) (priority t)); [lia|]. simpl.
    destruct (List.filter (fun u => Z.leb (priority t) (priority u)) q) as [|u l] eqn:Ef.
    + simpl. destruct (Z.leb_spec (priority t) (priority x)); [reflexivity|lia].
    + simpl. assert (Hu : In u q).
      { apply (filter_In (fun u => Z.leb (priority t) (priority u)) u q).
        rewrite Ef. left. reflexivity. }
      specialize (Hall u Hu). unfold prio_ge in Hall.
      destruct (Z.leb_spec (priority u) (priority x)); [reflexivity|lia].
  - destruct (Z.ltb_spec (priority x) (priority t)); [|lia].
    rewrite (filter_all_false _ q), (filter_all_true _ q).
    + simpl. destruct (Z.leb_spec (priority t) (priority x)); [lia|].
      destruct q as [|v q]; simpl; [reflexivity|].
      specialize (Hall v (or_introl eq_refl)). unfold prio_ge in Hall.
      destruct (Z.leb_spec (priority v) (priority x)); [reflexivity|lia].
    + intros u Hu. specialize (Hall u Hu). unfold prio_ge in Hall. apply Z.ltb_lt. lia.
    + intros u Hu. specialize (Hall u Hu). unfold prio_ge in Hall. apply Z.leb_gt. lia.
Qed.

Lemma reachable_strongly_sorted (ops : list QueueOp) :
  StronglySorted prio_ge (queue (run emptyTaskQueue ops)).
Proof.
  apply Sorted_StronglySorted; [exact prio_ge_trans|]. apply run_sorted. constructor.
Qed.

(** X11. In every reachable state, [addTask] places the new task after
    every pending task of equal or higher priority and before every task of
    lower priority: first come, first served within a priority. *)
Theorem addTask_position (ops : list QueueOp) (nt : NewTask) (now : Z) :
  let s := run emptyTaskQueue ops in
  let '(id, s') := addTask nt now s in
  exists t, task_id t = id /\ priority t = new_priority nt /\
    queue s' = List.filter (fun u => Z.leb (new_priority nt) (priority u)) (queue s) ++
               t :: List.filter (fun u => Z.ltb (priority u) (new_priority nt)) (queue s).
Proof.
  intros s. unfold addTask.
  exists (mkTask (next_uuid s) (new_type nt) (new_target nt) (new_marketplace nt)
            (new_priority nt) now (new_scheduledAt nt) (new_startedAt nt)
            (new_completedAt nt) pending 0 (new_maxRetries nt) (new_error nt)).
  split; [reflexivity|]. split; [reflexivity|]. cbn [queue].
  apply sortByPriority_snoc, reachable_strongly_sorted.
Qed.

(** X12. In every reachable state, a task requeued by [failTask] (retries
    left) goes after every pending task of equal or higher priority, with
    its retry count incremented, its start time cleared and the error
    recorded. *)
Theorem failTask_requeue_position (ops : list QueueOp) (k : nat) (err : string)
    (now : Z) (t : Task)
    (Hrun : runningTasks (run emptyTaskQueue ops) !! k = Some t)
    (Hretry : (retryCount t + 1 < maxRetries t)%Z) :
  let s := run emptyTaskQueue ops in
  queue (fst (failTask k err now s)) =
    List.filter (fun u => Z.leb (priority t) (priority u)) (queue s) ++
    set_requeued (retryCount t + 1) err t ::
    List.filter (fun u => Z.ltb (priority u) (priority t)) (queue s).
Proof.
  intros s. unfold failTask. fold s in Hrun. rewrite Hrun.
  destruct (Z.ltb_spec (retryCount t + 1) (maxRetries t)); [|lia]. simpl.
  apply (sortByPriority_snoc (queue s) (set_requeued (retryCount t + 1) err t)),
    reachable_strongly_sorted.
Qed.

(** X13. Completing a running task in a reachable state records its result
    under its id with the caller's success, data and error but the
    duration measured by the queue (completion time minus start time; the
    caller's [duration] is overwritten); the task is then unknown to
    [getTask], and the completed count grows by one. *)
Theorem completeTask_result (ops : list QueueOp) (k : nat) (r : ResultInput) (now : Z)
    (t : Task) (Hrun : runningTasks (run emptyTaskQueue ops) !! k = Some t) :
  let s := run emptyTaskQueue ops in
  let s' := fst (completeTask k r now s) in
  getTaskResult k s' =
    Some (mkTaskResult k (in_success r) (in_data r) (in_error r) (durationOf t now)) /\
  getTask k s' = None /\
  getCompletedTaskCount s' = S (getCompletedTaskCount s).
Proof.
  intros s s'. destruct (reachable_inv ops) as [Hs _]. fold s in Hs, Hrun.
  destruct Hs as [Hq [Hr _]].
  assert (Hck : completedTasks s !! k = None).
  { destruct (completedTasks s !! k) as [x|] eqn:E; [|reflexivity].
    destruct (Hr k x E) as [_ [_ H]]. congruence. }
  subst s'. unfold completeTask. rewrite Hrun. simpl.
  split; [|split].
  - unfold getTaskResult. simpl. rewrite lookup_insert_eq. reflexivity.
  - unfold getTask. simpl. rewrite lookup_delete_eq.
    apply find_task_none. eapply in_ids_running; eassumption.
  - unfold getCompletedTaskCount. simpl. apply map_size_insert_None, Hck.
Qed.

Lemma exec_durations (op : QueueOp) (s : TaskQueue) :
  (List.length (taskDurations s) <= 100)%nat ->
  (List.length (taskDurations (exec op s)) <= 100)%nat.
Proof.
  intros H. destruct op; simpl.
  - exact H.
  - unfold getNextTask. destruct (queue s); exact H.
  - revert s H. unfold getNextTasks. generalize (Z.to_nat count) as fuel.
    induction fuel as [|fuel IH]; intros s H; simpl; [exact H|].
    destruct (queue s) as [|t q] eqn:Eq; [exact H|].
    unfold getNextTask at 1. rewrite Eq.
    match goal with |- context [getNextTasks_loop fuel now ?s1] =>
      specialize (IH s1 H); destruct (getNextTasks_loop fuel now s1) end.
    exact IH.
  - unfold completeTask. destruct (runningTasks s !! id); simpl; [|exact H].
    rewrite length_app. simpl.
    destruct (Nat.ltb_spec 100 (List.length (taskDurations s) + 1)).
    + rewrite tl_skipn, length_skipn, length_app. simpl. lia.
    + rewrite length_app. simpl. lia.
  - unfold failTask. destruct (runningTasks s !! id); simpl; [|exact H].
    destruct (Z.ltb _ _); exact H.
Qed.

(** X14. In every reachable state at most 100 task durations are kept, so
    [getAverageTaskDuration] averages over at most the last 100 completed
    tasks. *)
Theorem taskDurations_bounded (ops : list QueueOp) :
  (List.length (taskDurations (run emptyTaskQueue ops)) <= 100)%nat.
Proof.
  assert (H : forall s, (List.length (taskDurations s) <= 100)%nat ->
                        (List.length (taskDurations (run s ops)) <= 100)%nat).
  { induction ops as [|op ops IH]; intros s Hs; simpl; [exact Hs|].
    apply IH, exec_durations, Hs. }
  apply H. simpl. lia.
Qed.

(** X15. Every task ever added is counted exactly once by the queue:
    pending + running + completed (results, successful or failed) equals
    the number of [addTask] calls. *)
Theorem queue_counts (ops : list QueueOp) :
  let s := run emptyTaskQueue ops in
  (getQueueLength s + getRunningTaskCount s + getCompletedTaskCount s)%nat =
    count_adds ops.
Proof.
  intros s. destruct (reachable_inv ops) as [[_ [_ Hc]] Hn]. exact (eq_trans Hc Hn).
Qed.

(** X16. The scheduler's [failedTasks] statistic ([totalTasks] minus
    completed minus running) counts the pending tasks, not the failed ones,
    when [totalTasks] is the number of tasks added. *)
Theorem scheduler_failedTasks_pending (ops : list QueueOp) (stats : SchedulerStats)
    (Htotal : totalTasks stats = Z.of_nat (count_adds ops)) :
  failedTasks (updateStats stats (run emptyTaskQueue ops)) =
    Z.of_nat (getQueueLength (run emptyTaskQueue ops)).
Proof.
  destruct (reachable_inv ops) as [[_ [_ Hc]] Hn]. unfold count_inv in Hc.
  unfold updateStats, getStats, getQueueLength. simpl. rewrite Htotal, <- Hn, <- Hc. lia.
Qed.

Lemma addTasks_spec (nts : list NewTask) (now : Z) :
  forall s, let '(ids, s') := addTasks nts now s in
  ids = seq (next_uuid s) (List.length nts) /\
  next_uuid s' = (next_uuid s + List.length nts)%nat /\
  List.length (queue s') = (List.length (queue s) + List.length nts)%nat /\
  (forall i, In i (map task_id (queue s)) \/ In i ids -> In i (map task_id (queue s'))).
Proof.
  induction nts as [|nt nts IH]; intros s; simpl.
  - split; [reflexivity|]. split; [lia|]. split; [lia|]. intros i [H|[]]; exact H.
  - match goal with |- context [addTasks nts now ?s1] =>
      specialize (IH s1); destruct (addTasks nts now s1) as [ids s2] end.
    simpl in IH. destruct IH as [-> [H2 [H3 H4]]].
    split; [reflexivity|]. split; [lia|].
    split; [rewrite H3, (Permutation_length (sortByPriority_perm _)), length_app; simpl; lia|].
    intros i Hi. apply H4. rewrite ids_sort_snoc. simpl. simpl in Hi.
    destruct Hi as [Hi|[Hi|Hi]]; [left; right; exact Hi|left; left; exact Hi|right; exact Hi].
Qed.

(** X17. On a reachable queue, [addTasks] returns one id per task, all
    distinct, none known before the call (no task, no result); each is
    pending afterwards, and the queue length grows by the number of
    tasks. *)
Theorem addTasks_fresh (ops : list QueueOp) (nts : list NewTask) (now : Z) :
  let s := run emptyTaskQueue ops in
  let '(ids, s') := addTasks nts now s in
  List.length ids = List.length nts /\ NoDup ids /\
  getQueueLength s' = (getQueueLength s + List.length nts)%nat /\
  (forall id, In id ids ->
     getTask id s = None /\ getTaskResult id s = None /\ In id (map task_id (queue s'))).
Proof.
  intros s. destruct (reachable_inv ops) as [Hs _]. fold s in Hs.
  pose proof (addTasks_spec nts now s) as H.
  destruct (addTasks nts now s) as [ids s']. destruct H as [-> [_ [H3 H4]]].
  split; [apply length_seq|]. split; [apply NoDup_ListNoDup, seq_NoDup|]. split; [exact H3|].
  intros id Hid. split; [|split].
  - apply fresh_unknown; [exact Hs|]. apply in_seq in Hid. lia.
  - apply fresh_unknown; [exact Hs|]. apply in_seq in Hid. lia.
  - apply H4. right. exact Hid.
Qed.

(** X18. [getCronExpression] yields [*/k * * * *] exactly for an interval
    of k whole minutes (k >= 1); every other interval (under a minute, not
    a whole number of minutes, zero or negative) runs the cycle every
    minute. *)
Theorem getCronExpression_spec (x : Z) :
  getCronExpression x =
    if (0 <? x)%Z && (x mod 60 =? 0)%Z
    then ("*/" +:+ pretty (x / 60)%Z +:+ " * * * *")%string
    else "* * * * *"%string.
Proof.
  unfold getCronExpression.
  destruct (Z.ltb_spec 0 x).
  - rewrite Z.rem_mod_nonneg by lia.
    destruct (Z.eqb_spec (x mod 60) 0); simpl.
    + destruct (Z.ltb_spec 0 (x / 60)); [reflexivity|].
      exfalso. pose proof (Z.div_mod x 60). lia.
    + rewrite andb_false_r. destruct (_ && _); reflexivity.
  - destruct (Z.ltb_spec 0 (x / 60)); [exfalso; pose proof (Z.div_mod x 60); pose proof (Z.mod_pos_bound x 60); lia|].
    simpl. destruct (_ && _); reflexivity.
Qed.

(** ** Extras: sorting and selecting deals *)

Lemma insertBy_perm (cmp : Deal -> Deal -> Q) (x : Deal) (l : list Deal) :
  Permutation (insertBy cmp x l) (x :: l).
Proof.
  induction l as [|u l IH]; simpl; [reflexivity|].
  destruct (Qle_bool (cmp x u) 0); [reflexivity|].
  rewrite IH. apply perm_swap.
Qed.

Lemma sortBy_perm (cmp : Deal -> Deal -> Q) (l : list Deal) :
  Permutation (sortBy cmp l) l.
Proof.
  induction l as [|x l IH]; simpl; [reflexivity|].
  rewrite insertBy_perm, IH. reflexivity.
Qed.

Section SortBy.
Variable cmp : Deal -> Deal -> Q.
Variable R : Deal -> Deal -> Prop.
Hypothesis HR_le : forall a b, Qle_bool (cmp a b) 0 = true -> R a b.
Hypothesis HR_gt : forall a b, Qle_bool (cmp a b) 0 = false -> R b a.

Lemma insertBy_sorted (x : Deal) (l : list Deal) :
  Sorted R l -> Sorted R (insertBy cmp x l).
Proof.
  induction l as [|u l IH]; intros Hs; simpl; [repeat constructor|].
  destruct (Qle_bool (cmp x u) 0) eqn:E.
  - constructor; [exact Hs|constructor; apply HR_le, E].
  - inversion Hs as [|? ? Hs' Hhd]; subst.
    constructor; [apply IH, Hs'|].
    destruct l as [|v l]; simpl; [constructor; apply HR_gt, E|].
    destruct (Qle_bool (cmp x v) 0); constructor; [apply HR_gt, E|].
    inversion Hhd; assumption.
Qed.

Lemma sortBy_sorted (l : list Deal) : Sorted R (sortBy cmp l).
Proof.
  induction l as [|x l IH]; simpl; [constructor|]. apply insertBy_sorted, IH.
Qed.

Variable P : Deal -> bool.
Hypothesis HP : forall a b, Qle_bool (cmp a b) 0 = false -> P a = true -> P b = false.

Lemma filter_insertBy (x : Deal) (l : list Deal) :
  List.filter P (insertBy cmp x l) = if P x then x :: List.filter P l else List.filter P l.
Proof.
  induction l as [|u l IH]; simpl; [reflexivity|].
  destruct (Qle_bool (cmp x u) 0) eqn:E; simpl; [reflexivity|].
  rewrite IH. destruct (P x) eqn:Ex.
  - rewrite (HP x u E Ex). reflexivity.
  - reflexivity.
Qed.

Lemma filter_sortBy (l : list Deal) : List.filter P (sortBy cmp l) = List.filter P l.
Proof.
  induction l as [|x l IH]; simpl; [reflexivity|].
  rewrite filter_insertBy, IH. destruct (P x); reflexivity.
Qed.

End SortBy.

(** The comparators of the sort functions, [key(a) - key(b)] or
    [key(b) - key(a)], meet the hypotheses of the section. *)
Lemma cmp_key_le (key : Deal -> Q) (desc : bool) (a b : Deal) :
  Qle_bool (if desc then key b - key a else key a - key b) 0 = true ->
  (if desc then key b <= key a else key a <= key b).
Proof.
  rewrite Qle_bool_iff. destruct desc; intros H; lra.
Qed.

Lemma cmp_key_gt (key : Deal -> Q) (desc : bool) (a b : Deal) :
  Qle_bool (if desc then key b - key a else key a - key b) 0 = false ->
  (if desc then key a <= key b else key b <= key a).
Proof.
  intros H. assert (H' : ~ (if desc then key b - key a else key a - key b) <= 0).
  { rewrite <- Qle_bool_iff. congruence. }
  destruct desc; lra.
Qed.

Lemma cmp_key_eq (key : Deal -> Q) (desc : bool) (v : Q) (a b : Deal) :
  Qle_bool (if desc then key b - key a else key a - key b) 0 = false ->
  Qeq_bool (key a) v = true -> Qeq_bool (key b) v = false.
Proof.
  intros H Ha. assert (H' : ~ (if desc then key b - key a else key a - key b) <= 0).
  { rewrite <- Qle_bool_iff. congruence. }
  apply Qeq_bool_iff in Ha. destruct (Qeq_bool (key b) v) eqn:Eb; [|reflexivity].
  apply Qeq_bool_iff in Eb. destruct desc; exfalso; lra.
Qed.

Lemma sort_key_spec (key : Deal -> Q) (desc : bool) (deals : list Deal) :
  let s := sortBy (fun a b => if desc then key b - key a else key a - key b) deals in
  Permutation s deals /\ ordered_by key desc s /\
  (forall v, with_key key v s = with_key key v deals).
Proof.
  intros s. split; [apply sortBy_perm|]. split.
  - apply sortBy_sorted.
    + intros a b. apply (cmp_key_le key desc a b).
    + intros a b H. pose proof (cmp_key_gt key desc a b H). destruct desc; exact H0.
  - intros v. apply filter_sortBy. intros a b. apply (cmp_key_eq key desc v a b).
Qed.

(** X19. Each of the six sort functions of [DealFilterManager] returns a
    permutation of its input (nothing lost, nothing added), ordered by its
    key in the requested direction ([sortBySalesRank] sorts ascending when
    its flag is set, the others descending). *)
Theorem sorts_permute_and_order (deals : list Deal) (d : bool) :
  (Permutation (sortByMargin deals d) deals /\
     ordered_by (fun x => margin (metrics x)) d (sortByMargin deals d)) /\
  (Permutation (sortByRoi deals d) deals /\
     ordered_by (fun x => roi (metrics x)) d (sortByRoi deals d)) /\
  (Permutation (sortByProfit deals d) deals /\
     ordered_by (fun x => profit (metrics x)) d (sortByProfit deals d)) /\
  (Permutation (sortByPrice deals d) deals /\
     ordered_by (fun x => price (product x)) d (sortByPrice deals d)) /\
  (Permutation (sortByRating deals d) deals /\
     ordered_by (fun x => rating (product x)) d (sortByRating deals d)) /\
  (Permutation (sortBySalesRank deals d) deals /\
     ordered_by (fun x => salesRank (product x)) (negb d) (sortBySalesRank deals d)).
Proof.
  split; [|split; [|split; [|split; [|split]]]].
  - destruct (sort_key_spec (fun x => margin (metrics x)) d deals) as [H1 [H2 _]]. tauto.
  - destruct (sort_key_spec (fun x => roi (metrics x)) d deals) as [H1 [H2 _]]. tauto.
  - destruct (sort_key_spec (fun x => profit (metrics x)) d deals) as [H1 [H2 _]]. tauto.
  - destruct (sort_key_spec (fun x => price (product x)) d deals) as [H1 [H2 _]]. tauto.
  - destruct (sort_key_spec (fun x => rating (product x)) d deals) as [H1 [H2 _]]. tauto.
  - destruct (sort_key_spec (fun x => salesRank (product x)) (negb d) deals) as [H1 [H2 _]].
    unfold sortBySalesRank. destruct d; simpl in *; tauto.
Qed.

(** X20. The sorts are stable: deals with the same key keep their input
    order (for every value [v], the deals whose key is [v] come out in
    the order they came in). *)
Theorem sorts_stable (deals : list Deal) (d : bool) (v : Q) :
  with_key (fun x => margin (metrics x)) v (sortByMargin deals d) =
    with_key (fun x => margin (metrics x)) v deals /\
  with_key (fun x => roi (metrics x)) v (sortByRoi deals d) =
    with_key (fun x => roi (metrics x)) v deals /\
  with_key (fun x => profit (metrics x)) v (sortByProfit deals d) =
    with_key (fun x => profit (metrics x)) v deals /\
  with_key (fun x => price (product x)) v (sortByPrice deals d) =
    with_key (fun x => price (product x)) v deals /\
  with_key (fun x => rating (product x)) v (sortByRating deals d) =
    with_key (fun x => rating (product x)) v deals /\
  with_key (fun x => salesRank (product x)) v (sortBySalesRank deals d) =
    with_key (fun x => salesRank (product x)) v deals.
Proof.
  split; [|split; [|split; [|split; [|split]]]].
  - apply (sort_key_spec (fun x => margin (metrics x)) d deals).
  - apply (sort_key_spec (fun x => roi (metrics x)) d deals).
  - apply (sort_key_spec (fun x => profit (metrics x)) d deals).
  - apply (sort_key_spec (fun x => price (product x)) d deals).
  - apply (sort_key_spec (fun x => rating (product x)) d deals).
  - destruct (sort_key_spec (fun x => salesRank (product x)) (negb d) deals) as [_ [_ H]].
    unfold sortBySalesRank. destruct d; apply H.
Qed.

Lemma StronglySorted_app_rel {A} (R : A -> A -> Prop) (l1 l2 : list A) :
  StronglySorted R (l1 ++ l2) -> Forall (fun x => Forall (fun y => R x y) l2) l1.
Proof.
  induction l1 as [|x l1 IH]; intros Hs; simpl; [constructor|].
  inversion Hs as [|? ? Hs' Hall]; subst. constructor; [|apply IH, Hs'].
  rewrite List.Forall_forall in Hall |- *. intros y Hy. apply Hall, in_or_app. right. exact Hy.
Qed.

Lemma sortKey_sorted (deals : list Deal) (k : SortKey) :
  let s := match k with
           | by_margin => sortByMargin deals true
           | by_roi => sortByRoi deals true
           | by_profit => sortByProfit deals true
           end in
  Permutation s deals /\ ordered_by (sortKey_value k) true s.
Proof.
  destruct k; simpl.
  - destruct (sort_key_spec (fun x => margin (metrics x)) true deals) as [H1 [H2 _]].
    split; assumption.
  - destruct (sort_key_spec (fun x => roi (metrics x)) true deals) as [H1 [H2 _]].
    split; assumption.
  - destruct (sort_key_spec (fun x => profit (metrics x)) true deals) as [H1 [H2 _]].
    split; assumption.
Qed.

(** X21. [getTopDeals(deals, count, sortBy)] returns deals of the input,
    none ranked below a deal it leaves out, and
    [count] of them (all if fewer) for [count >= 0]; a negative [count]
    is a [slice] end and drops that many from the end. *)
Theorem getTopDeals_spec (deals : list Deal) (count : Z) (k : SortKey) :
  let top := getTopDeals deals count k in
  exists rest, Permutation (top ++ rest) deals /\
    Forall (fun d => Forall (fun e => sortKey_value k e <= sortKey_value k d) rest) top /\
    Z.of_nat (List.length top) =
      if (0 <=? count)%Z then Z.min count (Z.of_nat (List.length deals))
      else Z.max 0 (Z.of_nat (List.length deals) + count).
Proof.
  intros top. destruct (sortKey_sorted deals k) as [Hp Hs].
  set (s := match k with
            | by_margin => sortByMargin deals true
            | by_roi => sortByRoi deals true
            | by_profit => sortByProfit deals true
            end) in *.
  assert (Htop : top = slice_to count s) by (unfold top, getTopDeals; destruct k; reflexivity).
  set (n := if (count <? 0)%Z then Z.to_nat (Z.of_nat (List.length s) + count)
            else Z.to_nat count).
  assert (Htop' : top = firstn n s).
  { rewrite Htop. unfold slice_to, n. destruct (count <? 0)%Z; reflexivity. }
  exists (skipn n s). split; [|split].
  - rewrite Htop', firstn_skipn. exact Hp.
  - rewrite Htop'. apply StronglySorted_app_rel. rewrite firstn_skipn.
    apply Sorted_StronglySorted; [|exact Hs].
    intros a b c H1 H2. simpl in *. eapply Qle_trans; eassumption.
  - rewrite Htop', length_firstn, (Permutation_length Hp). unfold n.
    rewrite (Permutation_length Hp).
    destruct (Z.ltb_spec count 0), (Z.leb_spec 0 count); lia.
Qed.

Lemma filter_tier_perm (deals : list Deal) :
  Permutation (getDealsByTier deals low ++ getDealsByTier deals medium ++
               getDealsByTier deals high) deals.
Proof.
  unfold getDealsByTier. induction deals as [|d deals IH]; simpl; [reflexivity|].
  destruct (tier d); simpl.
  - apply perm_skip, IH.
  - rewrite <- Permutation_middle. apply perm_skip, IH.
  - rewrite app_assoc, <- Permutation_middle, <- app_assoc. apply perm_skip, IH.
Qed.

(** X22. [getDealsByTier] splits the deals: the low, medium and high lists
    together are a rearrangement of the input, each deal in exactly one of
    them. *)
Theorem getDealsByTier_partition (deals : list Deal) :
  Permutation (getDealsByTier deals low ++ getDealsByTier deals medium ++
               getDealsByTier deals high) deals /\
  (forall t, Forall (fun d => tier d = t) (getDealsByTier deals t)).
Proof.
  split; [apply filter_tier_perm|].
  intros t. unfold getDealsByTier. apply List.Forall_forall. intros d Hd.
  apply filter_In in Hd as [_ Hd]. destruct (tier d), t; simpl in Hd; congruence.
Qed.

(** X23. [getDealsByMarketplace] with the codes ["DE"], ["FR"], ["IT"],
    ["ES"] splits the deals; any other string (e.g. a lower-case code)
    selects no deal. *)
Theorem getDealsByMarketplace_partition (deals : list Deal) :
  Permutation (getDealsByMarketplace deals "DE" ++ getDealsByMarketplace deals "FR" ++
               getDealsByMarketplace deals "IT" ++ getDealsByMarketplace deals "ES") deals /\
  (forall m, getDealsByMarketplace deals m = [] \/
             m = "DE"%string \/ m = "FR"%string \/ m = "IT"%string \/ m = "ES"%string).
Proof.
  split.
  - unfold getDealsByMarketplace. induction deals as [|d deals IH]; simpl; [reflexivity|].
    destruct (marketplace (product d)); simpl.
    + apply perm_skip, IH.
    + rewrite <- Permutation_middle. apply perm_skip, IH.
    + rewrite app_assoc, <- Permutation_middle, <- app_assoc. apply perm_skip, IH.
    + rewrite (app_assoc _ (List.filter _ _)), app_assoc, <- Permutation_middle,
        <- !app_assoc. apply perm_skip, IH.
  - intros m.
    destruct (String.eqb_spec m "DE"); [tauto|].
    destruct (String.eqb_spec m "FR"); [tauto|].
    destruct (String.eqb_spec m "IT"); [tauto|].
    destruct (String.eqb_spec m "ES"); [tauto|].
    left. unfold getDealsByMarketplace. apply filter_all_false. intros d _.
    destruct (marketplace (product d)); apply String.eqb_neq; intros H;
      cbn [MarketplaceCode_str] in H; congruence.
Qed.

(** ** Extras: fees, tier configuration, classification *)

(** X24. Every fee of [calculateFees] other than the referral fee and the
    VAT is independent of the sale price: when [calculateFees] returns a
    breakdown for sale price [p], the referral rate is a number [r], it
    returns one for any other sale price [y] too, and [total] changes by
    exactly [(y - p) * (r + VAT rate)]. *)
Theorem calculateFees_total_linear (params : FeeCalculationParams) (y : Q)
    (fb : FeeBreakdown) (Hfb : calculateFees params = inr fb) :
  exists r fb',
    referralFeeRate (param_category params) = Some (JSNumber r) /\
    calculateFees (with_salePrice params y) = inr fb' /\
    total fb' == total fb + (y - param_salePrice params) *
                             (r + VAT_RATES (param_marketplace params)).
Proof.
  destruct params as [sp cat ft m w d im]. unfold calculateFees, with_salePrice in *.
  cbn [param_salePrice param_category param_fulfillmentType param_marketplace
       param_productWeight param_productDimensions param_isMedia] in *.
  destruct (referralFeeRate cat) as [[r| |]|]; try discriminate.
  cbn in Hfb. injection Hfb as <-. exists r. eexists.
  split; [reflexivity|]. split; [reflexivity|]. unfold closingFeeOf. simpl. ring.
Qed.

Lemma base_fee_mono (X b1 b2 : bool) (S R : Q) :
  (b2 = true -> b1 = true) -> S <= R ->
  (if X && b1 then S else R) <= (if X && b2 then S else R).
Proof.
  intros Hb HSR. destruct X; simpl; [|apply Qle_refl].
  destruct b2; [rewrite (Hb eq_refl); apply Qle_refl|].
  destruct b1; [exact HSR|apply Qle_refl].
Qed.

Lemma weight_fee_mono (w1 w2 : Q) :
  w1 <= w2 ->
  (if Qgtb w1 1 then (w1 - 1) * FBA_WEIGHT_FEE else 0) <=
  (if Qgtb w2 1 then (w2 - 1) * FBA_WEIGHT_FEE else 0).
Proof.
  intros Hw. unfold FBA_WEIGHT_FEE.
  destruct (Qgtb w1 1) eqn:E1, (Qgtb w2 1) eqn:E2;
    rewrite ?Qgtb_true_iff, ?Qgtb_false_iff in E1;
      rewrite ?Qgtb_true_iff, ?Qgtb_false_iff in E2; lra.
Qed.

(** X25. A heavier product never costs less to fulfil or ship: for the
    same marketplace and dimensions, [calculateFBAFee] and
    [calculateShippingCost] are monotone in the weight. *)
Theorem fees_monotone_weight (m : MarketplaceCode) (dims : option Dimensions) (w1 w2 : Q)
    (Hw : w1 <= w2) :
  calculateFBAFee m (Some w1) dims <= calculateFBAFee m (Some w2) dims /\
  calculateShippingCost (Some w1) dims <= calculateShippingCost (Some w2) dims.
Proof.
  split.
  - unfold calculateFBAFee. apply Qplus_le_compat; [|apply weight_fee_mono, Hw].
    destruct dims as [d|]; [|apply Qle_refl].
    apply base_fee_mono.
    + rewrite !Qle_bool_iff. intros H. eapply Qle_trans; eassumption.
    + destruct m; simpl;
        repeat match goal with |- context [if ?c then _ else _] => destruct c end;
        apply Qle_bool_iff; reflexivity.
  - unfold calculateShippingCost.
    destruct (Qgtb w1 (1 # 2)) eqn:E1, (Qgtb w2 (1 # 2)) eqn:E2;
      rewrite ?Qgtb_true_iff, ?Qgtb_false_iff in E1;
      rewrite ?Qgtb_true_iff, ?Qgtb_false_iff in E2; lra.
Qed.

(** X26. [updateTierConfigs(configs)] gives each tier the new config's
    minimums, role and color; an upper bound ([maxMargin], [maxRoi]) takes
    the new config's value when the key is present, so a key present with
    [undefined] removes the bound, and stays the old bound when the key is
    absent. *)
Theorem updateTierConfigs_spec (tierConfigs : TierConfigs)
    (newConfigs : DealTier -> DealTierConfigObject) (t : DealTier) :
  getTierConfig (updateTierConfigs tierConfigs newConfigs) t =
    mkDealTierConfig (obj_minMargin (newConfigs t))
      (match obj_maxMargin (newConfigs t) with
       | Some v => v | None => maxMargin (tierConfigs t) end)
      (obj_minRoi (newConfigs t))
      (match obj_maxRoi (newConfigs t) with
       | Some v => v | None => maxRoi (tierConfigs t) end)
      (obj_role (newConfigs t)) (obj_color (newConfigs t)).
Proof.
  unfold getTierConfig, updateTierConfigs. destruct t; simpl;
    unfold updateTierConfig, mergeTierConfig, as_partial; simpl;
    destruct (obj_maxMargin (newConfigs _)), (obj_maxRoi (newConfigs _)); reflexivity.
Qed.

(** X27. A deal that [classify] rejects gets an empty reason list exactly
    when it meets both minimums of the low tier, i.e. when it is rejected
    only for exceeding a tier's maximum. *)
Theorem classify_rejected_reasons (tierConfigs : TierConfigs) (deal : Deal)
    (Hrej : qualifies (classify tierConfigs deal) = false) :
  result_tier (classify tierConfigs deal) = low /\
  (reasons (classify tierConfigs deal) = [] <->
   minMargin (tierConfigs low) <= margin (metrics deal) /\
   minRoi (tierConfigs low) <= roi (metrics deal)).
Proof.
  unfold classify in *.
  destruct (checkTier tierConfigs deal high); [discriminate|].
  destruct (checkTier tierConfigs deal medium); [discriminate|].
  destruct (checkTier tierConfigs deal low); [discriminate|]. simpl.
  split; [reflexivity|]. unfold getDisqualificationReasons.
  rewrite <- (Qltb_false_iff (margin (metrics deal))),
          <- (Qltb_false_iff (roi (metrics deal))).
  destruct (Qltb (margin (metrics deal)) _), (Qltb (roi (metrics deal)) _); simpl;
    split; intuition discriminate.
Qed.

(** ** Extras: the deal tracker *)

Ltac destr_ape :=
  try match goal with |- context [addPriceEntry ?x ?y] => destruct (addPriceEntry x y) end.

Lemma assoc_lookup_map_set {A} (k k' : string) (v : A) (l : list (string * A)) :
  assoc_lookup k (map_set k' v l) = if String.eqb k k' then Some v else assoc_lookup k l.
Proof.
  induction l as [|[k0 v0] l IH]; simpl; [reflexivity|].
  destruct (String.eqb_spec k' k0) as [<-|Hne]; simpl.
  - destruct (String.eqb k k'); reflexivity.
  - rewrite IH. destruct (String.eqb_spec k k') as [->|]; [|reflexivity].
    apply String.eqb_neq in Hne. rewrite Hne. reflexivity.
Qed.

Lemma assoc_lookup_map_delete {A} (k k' : string) (l : list (string * A)) :
  assoc_lookup k (map_delete k' l) = if String.eqb k k' then None else assoc_lookup k l.
Proof.
  unfold map_delete. induction l as [|[k0 v0] l IH]; simpl.
  - destruct (String.eqb k k'); reflexivity.
  - destruct (String.eqb_spec k0 k') as [->|Hne]; simpl.
    + rewrite IH. destruct (String.eqb k k'); reflexivity.
    + destruct (String.eqb_spec k k0) as [->|]; [|exact IH].
      apply String.eqb_neq in Hne. rewrite Hne. reflexivity.
Qed.

Lemma keys_map_set {A} (k : string) (v : A) (l : list (string * A)) :
  map fst (map_set k v l) =
    match assoc_lookup k l with Some _ => map fst l | None => map fst l ++ [k] end.
Proof.
  induction l as [|[k0 v0] l IH]; simpl; [reflexivity|].
  destruct (String.eqb_spec k k0) as [->|_]; simpl; [reflexivity|].
  rewrite IH. destruct (assoc_lookup k l); reflexivity.
Qed.

Lemma assoc_lookup_None_notin {A} (k : string) (l : list (string * A)) :
  assoc_lookup k l = None <-> ~ In k (map fst l).
Proof.
  induction l as [|[k0 v0] l IH]; simpl; [tauto|].
  destruct (String.eqb_spec k k0) as [->|Hne].
  - split; [discriminate|]. intros H. exfalso. apply H. left. reflexivity.
  - rewrite IH. split; [intros H [H'|H']; [congruence|tauto]|tauto].
Qed.

Lemma getDeal_key (tr : DealTracker) (d : Deal) :
  getDeal tr (asin (product d)) (marketplace (product d)) =
    assoc_lookup (getDealKey d) (trackedDeals tr).
Proof. reflexivity. Qed.

Lemma trackDeal_history (tr : DealTracker) (d : Deal) :
  history (priceHistoryManager (trackDeal tr d)) =
    <[getDealKey d := match history (priceHistoryManager tr) !! getDealKey d with
                      | Some h => h | None => [] end ++
                      [mkPriceHistoryEntry (asin (product d)) (marketplace (product d))
                         (price (product d)) (timestamp (product d))]
                     ]> (history (priceHistoryManager tr)) \/
  history (priceHistoryManager (trackDeal tr d)) =
    <[getDealKey d := List.tl (match history (priceHistoryManager tr) !! getDealKey d with
                      | Some h => h | None => [] end ++
                      [mkPriceHistoryEntry (asin (product d)) (marketplace (product d))
                         (price (product d)) (timestamp (product d))])
                     ]> (history (priceHistoryManager tr)).
Proof.
  unfold trackDeal, trackProduct, addPriceEntry, getDealKey. simpl.
  destruct (Nat.ltb MAX_HISTORY _); simpl; [right|left]; reflexivity.
Qed.

Lemma trackDeal_lastPrices (tr : DealTracker) (d : Deal) :
  lastPrices (priceHistoryManager (trackDeal tr d)) =
    <[getDealKey d := price (product d)]> (lastPrices (priceHistoryManager tr)).
Proof. reflexivity. Qed.

(** X28. [trackDeal(deal)] stores the deal under its product's key, so
    [getDeal] finds it and the product's last price is the deal's price;
    the deal of every other key is unchanged, and the number of tracked
    deals grows by one exactly when the key was not tracked (a deal for an
    already tracked product replaces the old one). *)
Theorem trackDeal_spec (tr : DealTracker) (d : Deal) (a : string) (m : MarketplaceCode) :
  let tr' := trackDeal tr d in
  getDeal tr' a m =
    (if String.eqb (getKey a m) (getDealKey d) then Some d else getDeal tr a m) /\
  getLastPrice (priceHistoryManager tr') (asin (product d)) (marketplace (product d)) =
    Some (price (product d)) /\
  getTrackedDealsCount tr' =
    match getDeal tr (asin (product d)) (marketplace (product d)) with
    | Some _ => getTrackedDealsCount tr
    | None => S (getTrackedDealsCount tr)
    end.
Proof.
  intros tr'. split; [|split].
  - unfold getDeal at 1. subst tr'. unfold trackDeal, trackProduct. simpl.
    destr_ape. simpl. rewrite assoc_lookup_map_set. reflexivity.
  - unfold getLastPrice. subst tr'. rewrite trackDeal_lastPrices.
    apply lookup_insert_eq.
  - unfold getTrackedDealsCount. subst tr'. unfold trackDeal, trackProduct. simpl.
    destr_ape. simpl. rewrite getDeal_key.
    rewrite <- (length_map fst (map_set _ _ _)), keys_map_set.
    destruct (assoc_lookup (getDealKey d) (trackedDeals tr)).
    + apply length_map.
    + rewrite length_app, length_map. simpl. lia.
Qed.

Lemma keys_map_delete_nodup {A} (k : string) (l : list (string * A)) :
  List.NoDup (map fst l) -> List.NoDup (map fst (map_delete k l)).
Proof.
  unfold map_delete. induction l as [|[k0 v0] l IH]; simpl; intros Hnd; [constructor|].
  inversion Hnd as [|? ? Hni Hnd']; subst.
  destruct (negb (String.eqb k0 k)); simpl; [|apply IH, Hnd'].
  constructor; [|apply IH, Hnd'].
  intros Hin. apply Hni. apply in_map_iff in Hin as [[k1 v1] [Hk Hin]].
  apply filter_In in Hin as [Hin _]. apply in_map_iff. exists (k1, v1). split; assumption.
Qed.

Lemma length_map_delete_nodup {A} (k : string) (l : list (string * A)) :
  List.NoDup (map fst l) ->
  List.length (map_delete k l) =
    match assoc_lookup k l with Some _ => pred (List.length l) | None => List.length l end.
Proof.
  unfold map_delete. induction l as [|[k0 v0] l IH]; simpl; intros Hnd; [reflexivity|].
  inversion Hnd as [|? ? Hni Hnd']; subst.
  destruct (String.eqb_spec k0 k) as [->|Hne]; simpl.
  - rewrite String.eqb_refl.
    rewrite (filter_all_true _ l); [reflexivity|].
    intros [k1 v1] Hin. simpl. apply negb_true_iff, String.eqb_neq. intros ->.
    apply Hni. apply in_map_iff. exists (k, v1). split; [reflexivity|exact Hin].
  - destruct (String.eqb_spec k k0) as [->|_]; [congruence|].
    rewrite (IH Hnd'). destruct (assoc_lookup k l) eqn:E; [|reflexivity].
    destruct l; [discriminate|]. reflexivity.
Qed.

Lemma clearDeal_history (tr : DealTracker) (a : string) (m : MarketplaceCode) :
  history (priceHistoryManager (clearDeal tr a m)) =
    delete (getKey a m) (history (priceHistoryManager tr)).
Proof. reflexivity. Qed.

Lemma tracker_inv_empty : tracker_inv emptyDealTracker.
Proof.
  split; [constructor|]. split; [constructor|].
  intros k. simpl. rewrite lookup_empty. tauto.
Qed.

Lemma trackDeal_inv (tr : DealTracker) (d : Deal) :
  tracker_inv tr -> tracker_inv (trackDeal tr d).
Proof.
  intros [Hnd [Hk Hh]]. split; [|split].
  - unfold trackDeal, trackProduct. simpl. destr_ape. simpl.
    rewrite keys_map_set. destruct (assoc_lookup (getDealKey d) (trackedDeals tr)) eqn:E;
      [exact Hnd|].
    apply assoc_lookup_None_notin in E.
    eapply Stdlib.Sorting.Permutation.Permutation_NoDup; [apply Permutation_cons_append|].
    constructor; assumption.
  - unfold trackDeal, trackProduct. simpl. destr_ape. simpl.
    clear Hh Hnd. induction (trackedDeals tr) as [|[k0 v0] l IH]; simpl;
      [constructor; [reflexivity|constructor]|].
    inversion Hk as [|? ? Hk0 Hl]; subst.
    destruct (String.eqb (getDealKey d) k0); constructor; auto.
  - intros k. destruct (trackDeal_history tr d) as [E|E]; rewrite E;
      unfold trackDeal, trackProduct; simpl; destr_ape; simpl;
      rewrite assoc_lookup_map_set;
      (destruct (String.eqb_spec k (getDealKey d)) as [->|Hne];
       [rewrite lookup_insert_eq; split; discriminate|
        rewrite lookup_insert_ne by congruence; apply Hh]).
Qed.

Lemma clearDeal_inv (tr : DealTracker) (a : string) (m : MarketplaceCode) :
  tracker_inv tr -> tracker_inv (clearDeal tr a m).
Proof.
  intros [Hnd [Hk Hh]]. split; [|split].
  - apply keys_map_delete_nodup, Hnd.
  - simpl. unfold map_delete. apply List.Forall_forall. intros x Hx.
    apply filter_In in Hx as [Hx _]. rewrite List.Forall_forall in Hk. apply Hk, Hx.
  - intros k. rewrite clearDeal_history. simpl. rewrite assoc_lookup_map_delete.
    destruct (String.eqb_spec k (getKey a m)) as [->|Hne].
    + rewrite lookup_delete_eq. tauto.
    + rewrite lookup_delete_ne by congruence. apply Hh.
Qed.

Lemma exec_tracker_inv (op : TrackerOp) (tr : DealTracker) :
  tracker_inv tr -> tracker_inv (exec_tracker op tr).
Proof.
  destruct op; simpl.
  - apply trackDeal_inv.
  - apply clearDeal_inv.
  - intros _. split; [constructor|]. split; [constructor|].
    intros k. simpl. rewrite lookup_empty. tauto.
Qed.

Lemma run_tracker_inv (ops : list TrackerOp) :
  forall tr, tracker_inv tr -> tracker_inv (run_tracker tr ops).
Proof.
  induction ops as [|op ops IH]; intros tr H; simpl; [exact H|].
  apply IH, exec_tracker_inv, H.
Qed.

Lemma reachable_tracker_inv (ops : list TrackerOp) :
  tracker_inv (run_tracker emptyDealTracker ops).
Proof. apply run_tracker_inv, tracker_inv_empty. Qed.

(** X29. On a tracker driven by [trackDeal], [clearDeal] and
    [clearAllDeals], [clearDeal(asin, marketplace)] removes that key's deal
    and no other, and the number of tracked deals drops by one exactly when
    a deal was tracked under the key. *)
Theorem clearDeal_spec (ops : list TrackerOp) (a : string) (m : MarketplaceCode)
    (a' : string) (m' : MarketplaceCode) :
  let tr := run_tracker emptyDealTracker ops in
  getDeal (clearDeal tr a m) a' m' =
    (if String.eqb (getKey a' m') (getKey a m) then None else getDeal tr a' m') /\
  getTrackedDealsCount (clearDeal tr a m) =
    match getDeal tr a m with
    | Some _ => pred (getTrackedDealsCount tr)
    | None => getTrackedDealsCount tr
    end.
Proof.
  intros tr. destruct (reachable_tracker_inv ops) as [Hnd _]. fold tr in Hnd.
  split.
  - apply assoc_lookup_map_delete.
  - apply length_map_delete_nodup, Hnd.
Qed.

Lemma size_of_keys {A B} (l : list (string * A)) :
  forall (mp : gmap string B), List.NoDup (map fst l) ->
  (forall k, assoc_lookup k l = None <-> mp !! k = None) ->
  List.length l = size mp.
Proof.
  induction l as [|[k v] l IH]; intros mp Hnd Hk; simpl.
  - symmetry. apply map_size_empty_iff. apply map_eq. intros k.
    rewrite lookup_empty. apply Hk. reflexivity.
  - inversion Hnd as [|? ? Hni Hnd']; subst.
    destruct (mp !! k) as [x|] eqn:Ex.
    2:{ exfalso. apply Hk in Ex. simpl in Ex. rewrite String.eqb_refl in Ex. discriminate. }
    rewrite (IH (delete k mp) Hnd').
    + rewrite map_size_delete_Some by eauto.
      assert (size mp <> 0%nat) by (eapply map_size_ne_0_lookup_2; rewrite Ex; eauto).
      lia.
    + intros k'. destruct (String.eqb_spec k' k) as [->|Hne].
      * rewrite lookup_delete_eq. split; [reflexivity|].
        intros _. apply assoc_lookup_None_notin, Hni.
      * rewrite lookup_delete_ne by congruence. rewrite <- Hk. simpl.
        apply String.eqb_neq in Hne. rewrite Hne. reflexivity.
Qed.

(** X30. On a tracker driven by [trackDeal], [clearDeal] and
    [clearAllDeals], [getAllDeals] never lists two deals of the same
    product (key [asin:marketplace]), and [getTrackedDealsCount] equals
    [getTrackedProductsCount]. *)
Theorem tracker_counts_agree (ops : list TrackerOp) :
  let tr := run_tracker emptyDealTracker ops in
  List.NoDup (map getDealKey (getAllDeals tr)) /\
  getTrackedDealsCount tr = getTrackedProductsCount (priceHistoryManager tr).
Proof.
  intros tr. destruct (reachable_tracker_inv ops) as [Hnd [Hk Hh]]. fold tr in Hnd, Hk, Hh.
  split.
  - unfold getAllDeals. rewrite map_map.
    rewrite (map_ext_in (fun x => getDealKey (snd x)) fst); [exact Hnd|].
    intros kd Hin. rewrite List.Forall_forall in Hk. symmetry. apply Hk, Hin.
  - apply size_of_keys; assumption.
Qed.

(** ** Witnesses of the further properties *)

(** X1 witness: two entries for one key, limit 1. *)
Lemma getPriceHistory_positive_limit_witness :
  (0 < 1)%Z /\
  getPriceHistory (addPriceEntries emptyPriceHistoryManager [entry_at 100 0; entry_at 90 1])
    "B08N5WRWNW" DE (Some 1%Z) =
  lastn (Nat.min (Z.to_nat 1) MAX_HISTORY)
    (entries_for [entry_at 100 0; entry_at 90 1] "B08N5WRWNW" DE).
Proof.
  split; [lia|].
  apply (getPriceHistory_positive_limit [entry_at 100 0; entry_at 90 1] "B08N5WRWNW" DE 1).
  lia.
Defined.

(** X2 witness: limit -1 on a series of two entries. *)
Lemma getPriceHistory_nonpositive_limit_witness :
  (-1 <= 0)%Z /\
  getPriceHistory (addPriceEntries emptyPriceHistoryManager [entry_at 100 0; entry_at 90 1])
    "B08N5WRWNW" DE (Some (-1)%Z) =
  skipn (Z.to_nat (- -1))
    (getPriceHistory (addPriceEntries emptyPriceHistoryManager [entry_at 100 0; entry_at 90 1])
       "B08N5WRWNW" DE None).
Proof.
  split; [lia|].
  apply (getPriceHistory_nonpositive_limit
           (addPriceEntries emptyPriceHistoryManager [entry_at 100 0; entry_at 90 1])
           "B08N5WRWNW" DE (-1)).
  lia.
Defined.

(** X12 witness: three tasks of priority 1, the first (two attempts)
    dequeued and failed once. *)
Lemma failTask_requeue_position_witness :
  runningTasks (run emptyTaskQueue two_running_ops) !! 0%nat =
    Some (set_running 1 (mkTask 0 TProduct "B08N5WRWNW" DE 1 0 None None None pending 0 2 None)) /\
  (retryCount (set_running 1 (mkTask 0 TProduct "B08N5WRWNW" DE 1 0 None None None pending 0 2 None))
     + 1 < maxRetries (set_running 1 (mkTask 0 TProduct "B08N5WRWNW" DE 1 0 None None None pending 0 2 None)))%Z /\
  queue (fst (failTask 0 "timeout" 2 (run emptyTaskQueue two_running_ops))) =
    List.filter (fun u => Z.leb 1 (priority u)) (queue (run emptyTaskQueue two_running_ops)) ++
    set_requeued 1 "timeout"
      (set_running 1 (mkTask 0 TProduct "B08N5WRWNW" DE 1 0 None None None pending 0 2 None)) ::
    List.filter (fun u => Z.ltb (priority u) 1) (queue (run emptyTaskQueue two_running_ops)).
Proof.
  assert (Hrun : runningTasks (run emptyTaskQueue two_running_ops) !! 0%nat =
    Some (set_running 1 (mkTask 0 TProduct "B08N5WRWNW" DE 1 0 None None None pending 0 2 None)))
    by (vm_compute; reflexivity).
  assert (Hretry : (retryCount (set_running 1 (mkTask 0 TProduct "B08N5WRWNW" DE 1 0 None None None pending 0 2 None))
     + 1 < maxRetries (set_running 1 (mkTask 0 TProduct "B08N5WRWNW" DE 1 0 None None None pending 0 2 None)))%Z)
    by (simpl; lia).
  split; [exact Hrun|]. split; [exact Hretry|].
  exact (failTask_requeue_position two_running_ops 0 "timeout" 2 _ Hrun Hretry).
Defined.

(** X13 witness: the first task of [two_running_ops] completed at time 5. *)
Lemma completeTask_result_witness :
  runningTasks (run emptyTaskQueue two_running_ops) !! 0%nat =
    Some (set_running 1 (mkTask 0 TProduct "B08N5WRWNW" DE 1 0 None None None pending 0 2 None)) /\
  getTaskResult 0 (fst (completeTask 0 (mkResultInput true None None 100) 5
                          (run emptyTaskQueue two_running_ops))) =
    Some (mkTaskResult 0 true None None 4).
Proof.
  assert (Hrun : runningTasks (run emptyTaskQueue two_running_ops) !! 0%nat =
    Some (set_running 1 (mkTask 0 TProduct "B08N5WRWNW" DE 1 0 None None None pending 0 2 None)))
    by (vm_compute; reflexivity).
  split; [exact Hrun|].
  exact (proj1 (completeTask_result two_running_ops 0 (mkResultInput true None None 100) 5 _ Hrun)).
Defined.

(** X16 witness: three tasks added, one running. *)
Lemma scheduler_failedTasks_pending_witness :
  totalTasks (mkSchedulerStats 3 0 0 0 0 0 0) = Z.of_nat (count_adds two_running_ops) /\
  failedTasks (updateStats (mkSchedulerStats 3 0 0 0 0 0 0) (run emptyTaskQueue two_running_ops)) =
    Z.of_nat (getQueueLength (run emptyTaskQueue two_running_ops)).
Proof.
  assert (Ht : totalTasks (mkSchedulerStats 3 0 0 0 0 0 0) = Z.of_nat (count_adds two_running_ops))
    by reflexivity.
  split; [exact Ht|].
  exact (scheduler_failedTasks_pending two_running_ops _ Ht).
Defined.

(** X24 witness: the media sale of 100 moved to 200. *)
Lemma calculateFees_total_linear_witness :
  exists fb, calculateFees media_params = inr fb /\
    exists r fb',
      referralFeeRate (param_category media_params) = Some (JSNumber r) /\
      calculateFees (with_salePrice media_params 200) = inr fb' /\
      total fb' == total fb + (200 - param_salePrice media_params) *
                               (r + VAT_RATES (param_marketplace media_params)).
Proof.
  destruct (calculateFees media_params) as [e|fb] eqn:E; [vm_compute in E; discriminate|].
  exists fb. split; [reflexivity|].
  exact (calculateFees_total_linear media_params 200 fb E).
Defined.

(** X25 witness: 0.5 kg against 2 kg, no dimensions. *)
Lemma fees_monotone_weight_witness :
  (1 # 2) <= 2 /\
  calculateFBAFee DE (Some (1 # 2)) None <= calculateFBAFee DE (Some 2) None /\
  calculateShippingCost (Some (1 # 2)) None <= calculateShippingCost (Some 2) None.
Proof.
  assert (Hw : (1 # 2) <= 2) by (unfold Qle; simpl; lia).
  split; [exact Hw|]. exact (fees_monotone_weight DE None _ _ Hw).
Defined.

(** X27 witness: margin 40 and ROI 30 exceed the low tier's maximum margin
    and miss the medium tier's minimum ROI, yet meet both low minimums. *)
Lemma classify_rejected_reasons_witness :
  qualifies (classify sample_tiers (deal_with 40 30)) = false /\
  reasons (classify sample_tiers (deal_with 40 30)) = [].
Proof.
  assert (Hrej : qualifies (classify sample_tiers (deal_with 40 30)) = false)
    by (vm_compute; reflexivity).
  split; [exact Hrej|].
  apply (proj2 (classify_rejected_reasons sample_tiers (deal_with 40 30) Hrej)).
  split; simpl; unfold Qle; simpl; lia.
Defined.
